(** * Orchestrator core of MultiAgent-Demo: registry, router, dispatcher,
      queue processor and response reader.

    A shallow embedding of [src/agents/orchestrator/main.py].

    Conventions of the embedding.
    - Text is ASCII text ([string]); [lower] is Python's [str.lower] on it.
    - A descriptor document (a Python dict) is a record whose fields are
      [option]s: [None] is an absent key, and [d.get(k, default)] is
      [get_or default].
    - The registry [discovered_agents] is a Python dict: insertion ordered,
      keys unique.  It is an association list updated by [Dict.set].
    - An [await] on an external collaborator (HTTP, Service Bus) either
      returns, raises an exception or is cancelled; what it does is read
      from an environment record, and what the code did to the queues is
      written to a trace of events.
    - The fields of a document have the types the descriptor format gives
      them (a description is text, a skill list is a list of objects);
      documents that break them are outside the model. *)

From Stdlib Require Import List String Ascii Bool Arith ZArith Lia.
Import ListNotations.
Local Open Scope string_scope.
Local Open Scope list_scope.

(** ** Python strings *)

Module PyStr.

(** [c.lower()] on one ASCII character. *)
Definition lower_ascii (c : ascii) : ascii :=
  let n := nat_of_ascii c in
  if ((65 <=? n) && (n <=? 90))%nat then ascii_of_nat (n + 32) else c.

(** [s.lower()] *)
Fixpoint lower (s : string) : string :=
  match s with
  | EmptyString => EmptyString
  | String c rest => String (lower_ascii c) (lower rest)
  end.

(** [needle in hay] *)
Fixpoint contains (needle hay : string) : bool :=
  if String.prefix needle hay then true
  else match hay with
       | EmptyString => false
       | String _ rest => contains needle rest
       end.

(** [any(keyword in text for keyword in keywords)] *)
Definition any_in (keywords : list string) (text : string) : bool :=
  existsb (fun keyword => contains keyword text) keywords.

(** The characters [str.strip()] removes, within ASCII. *)
Definition is_space (c : ascii) : bool :=
  let n := nat_of_ascii c in
  (((9 <=? n) && (n <=? 13)) || ((28 <=? n) && (n <=? 32)))%nat.

Fixpoint lstrip (s : string) : string :=
  match s with
  | EmptyString => EmptyString
  | String c rest => if is_space c then lstrip rest else s
  end.

Fixpoint rstrip (s : string) : string :=
  match s with
  | EmptyString => EmptyString
  | String c rest =>
      match rstrip rest with
      | EmptyString => if is_space c then EmptyString else String c EmptyString
      | kept => String c kept
      end
  end.

(** [s.strip()] *)
Definition strip (s : string) : string := rstrip (lstrip s).

(** [s.replace(old, new)] for a non-empty [old]: leftmost occurrences, not
    overlapping.  [skip] counts the characters of an occurrence of [old]
    still to be dropped. *)
Fixpoint replace_from (old new s : string) (skip : nat) : string :=
  match s with
  | EmptyString => EmptyString
  | String c rest =>
      match skip with
      | S k => replace_from old new rest k
      | O =>
          if String.prefix old s
          then (new ++ replace_from old new rest (String.length old - 1))%string
          else String c (replace_from old new rest 0)
      end
  end.

Definition replace (old new s : string) : string := replace_from old new s 0.

(** Truth value of a string: [bool(s)]. *)
Definition truthy (s : string) : bool :=
  match s with EmptyString => false | _ => true end.

End PyStr.
Export PyStr.

(** [d.get(key, default)] on a field that may be absent. *)
Definition get_or {A : Type} (default : A) (field : option A) : A :=
  match field with Some v => v | None => default end.

(** ** Python dicts as insertion-ordered association lists *)

Module Dict.
Section Dict.
Context {V : Type}.

Definition dict := list (string * V).

(** [d.get(key)] *)
Fixpoint get (key : string) (d : dict) : option V :=
  match d with
  | [] => None
  | (k, v) :: rest => if String.eqb key k then Some v else get key rest
  end.

(** [key in d] *)
Definition mem (key : string) (d : dict) : bool :=
  match get key d with Some _ => true | None => false end.

(** [d[key] = value]: an existing key keeps its place, a new one goes last. *)
Fixpoint set (key : string) (value : V) (d : dict) : dict :=
  match d with
  | [] => [(key, value)]
  | (k, v) :: rest =>
      if String.eqb key k then (k, value) :: rest
      else (k, v) :: set key value rest
  end.

(** [list(d.keys())] *)
Definition keys (d : dict) : list string := map fst d.

End Dict.
Arguments dict : clear implicits.
End Dict.

(** ** Data model *)

(** One entry of a descriptor's skill list. *)
Record skill := mk_skill {
  skill_name : option string;
  skill_description : option string;
  skill_examples : list string
}.

(** The object under the ["capabilities"] key. *)
Record capabilities := mk_capabilities {
  cap_skills : option (list skill)
}.

(** An agent card: the descriptor document fetched from an endpoint, and
    the two keys [discover_all_agents] adds to it.  [other_keys] lists the
    remaining keys of the document (["version"], ["url"], ...), which only
    matter for the truth value of the dict. *)
Record agent_card := mk_card {
  card_name : option string;
  card_description : option string;
  card_skills : option (list skill);
  card_capabilities : option capabilities;
  _discovery_url : option string;
  _base_url : option string;
  other_keys : list string
}.

(** [bool(agent_card)]: a dict is true when it has a key. *)
Definition card_truthy (c : agent_card) : bool :=
  match card_name c, card_description c, card_skills c, card_capabilities c,
        _discovery_url c, _base_url c, other_keys c with
  | None, None, None, None, None, None, [] => false
  | _, _, _, _, _, _, _ => true
  end.

(** The global [discovered_agents]. *)
Definition registry := Dict.dict agent_card.

(** ** Capability router: [select_best_agent] *)

Module Router.

(** The [logger] call that accompanies each [return] of the router. *)
Inductive decision :=
| UsingPreferred
| NameBurger | NamePizza | NameIllustration
| SkillIllustration | SkillCurrency | SkillTravel | SkillBurger | SkillPizza
| DefaultAgent
| NoAgents.

Definition burger_keywords := ["burger"; "cheeseburger"; "hamburger"].
Definition pizza_keywords := ["pizza"; "pizzas"; "margherita"; "pepperoni"].
Definition illustration_keywords :=
  ["illustration"; "illustrate"; "draw"; "image"; "picture"; "visual";
   "graphic"].
Definition currency_keywords := ["currency"; "exchange"; "convert"].
Definition travel_keywords :=
  ["restaurant"; "attraction"; "itinerary"; "trip"; "plan"].

(** The body of [for skill in skills:]. *)
Fixpoint scan_skills (task_lower agent_name : string) (skills : list skill)
  : option decision :=
  match skills with
  | [] => None
  | skill :: rest =>
      let skill_name := lower (get_or "" (skill_name skill)) in
      let skill_desc := lower (get_or "" (skill_description skill)) in
      if any_in illustration_keywords task_lower
         && (contains "illustrat" skill_name
             || contains "illustrat" skill_desc)
      then Some SkillIllustration
      else if any_in currency_keywords task_lower
         && (contains "currency" skill_name || contains "currency" skill_desc)
      then Some SkillCurrency
      else if any_in travel_keywords task_lower
         && (contains "travel" skill_name || contains "restaurant" skill_name
             || contains "attraction" skill_name)
      then Some SkillTravel
      else if any_in burger_keywords task_lower
         && (contains "burger" skill_name || contains "burger" skill_desc
             || contains "burger" (lower agent_name))
      then Some SkillBurger
      else if any_in pizza_keywords task_lower
         && (contains "pizza" skill_name || contains "pizza" skill_desc
             || contains "pizza" (lower agent_name))
      then Some SkillPizza
      else scan_skills task_lower agent_name rest
  end.

(** The skill list the router reads:
    [agent_card.get("capabilities", {}).get("skills", [])]. *)
Definition router_skills (agent_card : agent_card) : list skill :=
  match card_capabilities agent_card with
  | Some capabilities => get_or [] (cap_skills capabilities)
  | None => []
  end.

(** The body of [for agent_name, agent_card in discovered_agents.items():]
    for one agent; [None] when the loop goes on to the next agent. *)
Definition scan_agent (task_lower agent_name : string)
    (agent_card : agent_card) : option decision :=
  let agent_description := lower (get_or "" (card_description agent_card)) in
  let agent_name_lower := lower agent_name in
  let skills := router_skills agent_card in
  if any_in burger_keywords task_lower
     && (contains "burger" agent_name_lower
         || contains "burger" agent_description)
  then Some NameBurger
  else if any_in pizza_keywords task_lower
     && (contains "pizza" agent_name_lower
         || contains "pizza" agent_description)
  then Some NamePizza
  else if any_in illustration_keywords task_lower
     && (contains "illustrat" agent_name_lower
         || contains "illustrat" agent_description)
  then Some NameIllustration
  else scan_skills task_lower agent_name skills.

(** The loop over the registry, in iteration order. *)
Fixpoint scan_agents (task_lower : string) (agents : registry)
  : option (string * decision) :=
  match agents with
  | [] => None
  | (agent_name, agent_card) :: rest =>
      match scan_agent task_lower agent_name agent_card with
      | Some why => Some (agent_name, why)
      | None => scan_agents task_lower rest
      end
  end.

(** [preferred_agent and preferred_agent in discovered_agents] *)
Definition preferred_applies (discovered_agents : registry)
    (preferred_agent : option string) : bool :=
  match preferred_agent with
  | Some p => truthy p && Dict.mem p discovered_agents
  | None => false
  end.

(** [select_best_agent], with the log line of the branch that returned. *)
Definition select_best_agent_logged (discovered_agents : registry)
    (task : string) (preferred_agent : option string)
  : option string * decision :=
  if preferred_applies discovered_agents preferred_agent
  then (preferred_agent, UsingPreferred)
  else
    let task_lower := lower task in
    match scan_agents task_lower discovered_agents with
    | Some (agent_name, why) => (Some agent_name, why)
    | None =>
        match Dict.keys discovered_agents with
        | default_agent :: _ => (Some default_agent, DefaultAgent)
        | [] => (None, NoAgents)
        end
    end.

(** [select_best_agent(task, preferred_agent)] on the registry
    [discovered_agents]. *)
Definition select_best_agent (discovered_agents : registry) (task : string)
    (preferred_agent : option string) : option string :=
  fst (select_best_agent_logged discovered_agents task preferred_agent).

End Router.
Export Router.

(** ** Values, exceptions and effects *)

(** A parsed JSON body, [response.json()]. *)
#[warnings="-register-all"]
Inductive json :=
| JNull
| JBool (b : bool)
| JNum (n : Z)
| JStr (s : string)
| JArr (items : list json)
| JObj (fields : list (string * json)).

(** The exceptions the core raises or meets. [TransportError] stands for
    whatever httpx or the Service Bus client raises. *)
Inductive exn :=
| ValueError (message : string)
| AttributeError (message : string)
| HTTPException (status_code : nat) (detail : string)
| TransportError (message : string).

(** What an [await] does: it returns, it raises an [Exception], or the task
    is cancelled there ([asyncio.CancelledError], which [except Exception]
    does not catch). *)
Inductive outcome (A : Type) :=
| Returns (a : A)
| Raises (e : exn)
| Cancelled.
Arguments Returns {A} a.
Arguments Raises {A} e.
Arguments Cancelled {A}.

(** A message as the queue delivers it.  Its properties are those the
    transport hands back, which need not be the list the sender wrote: a
    lookup under the sender's key may find nothing. *)
Record received_message := mk_received {
  message_id : string;
  body : string;
  application_properties : option (list (string * string));
  enqueued_time_utc : option string
}.

(** [ServiceBusMessage(body=..., application_properties=...)] *)
Record ServiceBusMessage := mk_message {
  msg_body : json;
  msg_application_properties : list (string * string)
}.

(** The Service Bus client: what each operation on the queues does. *)
Record ServiceBusClient := mk_client {
  send_messages : string -> ServiceBusMessage -> outcome unit;
  complete_message : received_message -> outcome unit;
  dead_letter_message : received_message -> string -> string -> outcome unit;
  abandon_message : received_message -> outcome unit
}.

(** The rest of the world: the HTTP client and Python's [str] on values
    whose text the model does not fix.
    [http_get url] is [client.get(url)], [raise_for_status()] and [json()];
    [http_post url task user_id] likewise for
    [client.post(url, json={"task": task, "user_id": user_id})]. *)
Record environment := mk_env {
  http_get : string -> outcome agent_card;
  http_post : string -> string -> string -> outcome json;
  str_json : json -> string;
  str_exn : exn -> string
}.

(** What the code did to the queues, in order. *)
Inductive event :=
| Sent (queue_name : string) (m : ServiceBusMessage)
| Completed (m : received_message)
| DeadLettered (m : received_message) (reason error_description : string)
| Abandoned (m : received_message).

(** Computations that raise, can be cancelled, and extend the trace. *)
Definition M (A : Type) : Type := list event -> outcome A * list event.

Definition ret {A : Type} (a : A) : M A := fun tr => (Returns a, tr).

Definition raise {A : Type} (e : exn) : M A := fun tr => (Raises e, tr).

Definition bind {A B : Type} (m : M A) (k : A -> M B) : M B :=
  fun tr =>
    match m tr with
    | (Returns a, tr') => k a tr'
    | (Raises e, tr') => (Raises e, tr')
    | (Cancelled, tr') => (Cancelled, tr')
    end.

(** [try: body except Exception as e: handler e] *)
Definition try_except {A : Type} (body : M A) (handler : exn -> M A) : M A :=
  fun tr =>
    match body tr with
    | (Raises e, tr') => handler e tr'
    | done => done
    end.

(** An [await] whose effect, when it returns, is the events [done]. *)
Definition await {A : Type} (o : outcome A) (done : list event) : M A :=
  fun tr =>
    match o with
    | Returns a => (Returns a, tr ++ done)
    | Raises e => (Raises e, tr)
    | Cancelled => (Cancelled, tr)
    end.

Declare Scope py_scope.
Delimit Scope py_scope with py.
Notation "x <- m ;; k" := (bind m (fun x => k))
  (at level 61, m at next level, right associativity) : py_scope.
Notation "m ;; k" := (bind m (fun _ => k))
  (at level 61, right associativity) : py_scope.
Local Open Scope py_scope.

(** ** Discovery: [discover_agent], [discover_all_agents] *)

Module Discovery.

(** The local [skills] of [discover_agent]:
    [agent_card.get('skills', []) or
     agent_card.get('capabilities', {}).get('skills', [])].
    The function logs its length and does nothing else with it. *)
Definition discover_agent_skills (agent_card : agent_card) : list skill :=
  match get_or [] (card_skills agent_card) with
  | [] => match card_capabilities agent_card with
          | Some capabilities => get_or [] (cap_skills capabilities)
          | None => []
          end
  | skills => skills
  end.

(** [discover_agent(endpoint_url)]: the card, or [None] when anything in
    the [try] raised. *)
Definition discover_agent (env : environment) (endpoint_url : string)
  : outcome (option agent_card) :=
  match http_get env endpoint_url with
  | Returns agent_card => Returns (Some agent_card)
  | Raises e => Returns None
  | Cancelled => Cancelled
  end.

Definition well_known := "/.well-known/agent.json".

(** The card as stored: with its discovery URL and base URL. *)
Definition stored_card (endpoint : string) (card : agent_card)
  : agent_card :=
  {| card_name := card_name card;
     card_description := card_description card;
     card_skills := card_skills card;
     card_capabilities := card_capabilities card;
     _discovery_url := Some endpoint;
     _base_url := Some (replace well_known "" endpoint);
     other_keys := other_keys card |}.

(** [discover_all_agents()] over the endpoints [AGENT_ENDPOINTS], as a
    transformer of the global registry. *)
Fixpoint discover_all_agents (env : environment)
    (AGENT_ENDPOINTS : list string) (discovered_agents : registry)
  : outcome unit * registry :=
  match AGENT_ENDPOINTS with
  | [] => (Returns tt, discovered_agents)
  | endpoint :: rest =>
      let endpoint := strip endpoint in
      if negb (truthy endpoint)
      then discover_all_agents env rest discovered_agents
      else
        match discover_agent env endpoint with
        | Returns (Some agent_card) =>
            if card_truthy agent_card
            then
              let agent_name := get_or "unknown" (card_name agent_card) in
              discover_all_agents env rest
                (Dict.set agent_name (stored_card endpoint agent_card)
                   discovered_agents)
            else discover_all_agents env rest discovered_agents
        | Returns None => discover_all_agents env rest discovered_agents
        | Raises e => (Raises e, discovered_agents)
        | Cancelled => (Cancelled, discovered_agents)
        end
  end.

(** The entries [discover_all_agents] writes, in order: one for each
    endpoint whose fetch returns a document that is not empty, up to a
    cancellation. *)
Fixpoint stored_in_pass (env : environment) (AGENT_ENDPOINTS : list string)
  : list (string * agent_card) :=
  match AGENT_ENDPOINTS with
  | [] => []
  | endpoint :: rest =>
      let endpoint := strip endpoint in
      if negb (truthy endpoint) then stored_in_pass env rest
      else
        match http_get env endpoint with
        | Returns card =>
            if card_truthy card
            then (get_or "unknown" (card_name card),
                  stored_card endpoint card) :: stored_in_pass env rest
            else stored_in_pass env rest
        | Raises _ => stored_in_pass env rest
        | Cancelled => []
        end
  end.

(** The partial-failure property as the specification words it, for a pass
    over [endpoints] from the registry [before]: whenever the fetch of [A]
    fails and the fetch of [B] succeeds, the pass returns, the registry has
    B's agent and has no agent discovered from [A]. *)
Definition has_b_not_a (env : environment) (endpoints : list string)
    (before : registry) : Prop :=
  forall A B e docB,
    In A endpoints -> In B endpoints ->
    http_get env A = Raises e -> http_get env B = Returns docB ->
    let after := discover_all_agents env endpoints before in
    fst after = Returns tt
    /\ Dict.mem (get_or "unknown" (card_name docB)) (snd after) = true
    /\ (forall n card, Dict.get n (snd after) = Some card ->
                       _discovery_url card <> Some A).

End Discovery.
Export Discovery.

(** ** Dispatcher: [call_agent] *)

Module Dispatcher.

(** [call_agent(agent_name, task, user_id)] *)
Definition call_agent (env : environment) (discovered_agents : registry)
    (agent_name task user_id : string) : M json :=
  match Dict.get agent_name discovered_agents with
  | None => raise (ValueError ("Agent '" ++ agent_name ++ "' not found")%string)
  | Some agent_card =>
      let agent_base_url := get_or "" (_base_url agent_card) in
      if negb (truthy agent_base_url)
      then raise (ValueError
                    ("No base URL stored for agent '" ++ agent_name ++ "'")%string)
      else
        let task_url := (agent_base_url ++ "/task")%string in
        try_except
          (result <- await (http_post env task_url task user_id) [] ;;
           match result with
           | JObj fields =>
               ret (get_or (JStr (str_json env result))
                      (Dict.get "result" fields))
           | _ => raise (AttributeError "object has no attribute 'get'")
           end)
          (fun e =>
             raise (HTTPException 500
                      ("Failed to call agent: " ++ str_exn env e)%string))
  end.

(** The dispatcher does not fail on the shape of a successful response:
    the last part of the dispatcher's contract, as the specification words
    it. *)
Definition never_fails_on_shape (env : environment)
    (discovered_agents : registry) (agent_name task user_id : string)
  : Prop :=
  forall card reply,
    Dict.get agent_name discovered_agents = Some card ->
    truthy (get_or "" (_base_url card)) = true ->
    http_post env (get_or "" (_base_url card) ++ "/task")%string task user_id
    = Returns reply ->
    exists r,
      fst (call_agent env discovered_agents agent_name task user_id [])
      = Returns r.

End Dispatcher.
Export Dispatcher.

(** ** Requests and the two submission paths *)

(** [TaskRequest]; [user_id] has had its default applied. *)
Record TaskRequest := mk_request {
  task : string;
  user_id : string;
  preferred_agent : option string
}.

(** [TaskResponse]; its fields are [str]. *)
Record TaskResponse := mk_response {
  result : string;
  agent_used : string;
  orchestrator : string
}.

Module Api.

(** [not selected_agent] for an [Optional[str]]. *)
Definition selected (selected_agent : option string) : option string :=
  match selected_agent with
  | Some agent_name => if truthy agent_name then Some agent_name else None
  | None => None
  end.

(** [TaskResponse(result=result, agent_used=selected_agent,
    orchestrator="orchestrator")]: the model validates its [result: str]
    field.  A string is kept as it is; for any other value the answer is
    the validation library's, [validate]: the text it turns the value
    into, or the error it raises. *)
Definition task_response (validate : json -> exn + string) (result : json)
    (selected_agent : string) : M TaskResponse :=
  match result with
  | JStr text =>
      ret {| result := text;
             agent_used := selected_agent;
             orchestrator := "orchestrator" |}
  | other =>
      match validate other with
      | inr text =>
          ret {| result := text;
                 agent_used := selected_agent;
                 orchestrator := "orchestrator" |}
      | inl e => raise e
      end
  end.

(** [execute_task(request)], the synchronous path. *)
Definition execute_task (env : environment)
    (validate : json -> exn + string) (discovered_agents : registry)
    (request : TaskRequest) : M TaskResponse :=
  match discovered_agents with
  | [] => raise (HTTPException 503
                   "No agents available. Agent discovery may have failed.")
  | _ :: _ =>
      let selected_agent :=
        select_best_agent discovered_agents (task request)
          (preferred_agent request) in
      match selected selected_agent with
      | None => raise (HTTPException 404
                         "No suitable agent found for this task")
      | Some selected_agent =>
          try_except
            (result <- call_agent env discovered_agents selected_agent
                         (task request) (user_id request) ;;
             task_response validate result selected_agent)
            (fun e => raise (HTTPException 500 (str_exn env e)))
      end
  end.

(** The message [execute_task_async] builds:
    [preferred_agent] is stored as [request.preferred_agent or ""]. *)
Definition task_message (request : TaskRequest) : ServiceBusMessage :=
  {| msg_body := JStr (task request);
     msg_application_properties :=
       [("user_id", user_id request);
        ("preferred_agent",
         match preferred_agent request with
         | Some p => if truthy p then p else ""
         | None => ""
         end)] |}.

(** [execute_task_async(request)], the enqueue path; of the returned
    document only its ["status"] is kept. *)
Definition execute_task_async (service_bus_client : option ServiceBusClient)
    (env : environment) (request : TaskRequest) : M string :=
  match service_bus_client with
  | None =>
      raise (HTTPException 503
        "Service Bus not available. Use /task for synchronous execution.")
  | Some client =>
      try_except
        (let message := task_message request in
         await (send_messages client "agent-tasks" message)
           [Sent "agent-tasks" message] ;;
         ret "queued")
        (fun e =>
           raise (HTTPException 500
                    ("Failed to queue task: " ++ str_exn env e)%string))
  end.

End Api.
Export Api.

(** ** Queue processor: [process_queue_messages] *)

Module QueueProcessor.

(** The arguments of the router call for a delivered message:
    [str(msg)] and [msg.application_properties.get("preferred_agent")]. *)
Definition message_task (msg : received_message) : string := body msg.

Definition message_preferred_agent (properties : list (string * string))
  : option string :=
  Dict.get "preferred_agent" properties.

(** The response the processor publishes. *)
Definition response_message (result : json)
    (user_id selected_agent task : string) : ServiceBusMessage :=
  {| msg_body := result;
     msg_application_properties :=
       [("user_id", user_id);
        ("agent_used", selected_agent);
        ("original_task", task)] |}.

(** The body of [for msg in received_msgs:], a [try] with its handler. *)
Definition process_message (client : ServiceBusClient) (env : environment)
    (discovered_agents : registry) (msg : received_message) : M unit :=
  try_except
    (let task := message_task msg in
     properties <-
       match application_properties msg with
       | Some properties => ret properties
       | None => raise (AttributeError "object has no attribute 'get'")
       end ;;
     let user_id := get_or "anonymous" (Dict.get "user_id" properties) in
     let preferred_agent := message_preferred_agent properties in
     let selected_agent :=
       select_best_agent discovered_agents task preferred_agent in
     match selected selected_agent with
     | Some selected_agent =>
         result <- call_agent env discovered_agents selected_agent task
                     user_id ;;
         let response_msg :=
           response_message result user_id selected_agent task in
         await (send_messages client "agent-responses" response_msg)
           [Sent "agent-responses" response_msg]
     | None => ret tt
     end ;;
     await (complete_message client msg) [Completed msg])
    (fun e =>
       let reason := "ProcessingError" in
       let error_description := str_exn env e in
       await (dead_letter_message client msg reason error_description)
         [DeadLettered msg reason error_description]).

(** [for msg in received_msgs:] *)
Fixpoint process_batch (client : ServiceBusClient) (env : environment)
    (discovered_agents : registry) (received_msgs : list received_message)
  : M unit :=
  match received_msgs with
  | [] => ret tt
  | msg :: rest =>
      process_message client env discovered_agents msg ;;
      process_batch client env discovered_agents rest
  end.

(** One iteration of [while True:]: what [receive_messages] does, and
    whether the [asyncio.sleep] that ends the iteration is cancelled (the
    [sleep(1)] after a batch, or the [sleep(5)] of the handler after an
    exception). *)
Record iteration := mk_iteration {
  receive : outcome (list received_message);
  sleep_cancelled : bool
}.

(** [while True:] with the receiver open; the run is observed for as long
    as [iterations] lasts.  Inside the [try], a cancellation (of the
    receive, of the handling of a message, of [sleep(1)]) leaves the loop;
    an exception goes to the handler, which sleeps and goes on to the next
    iteration, and a cancellation of that sleep escapes the loop. *)
Fixpoint queue_loop (client : ServiceBusClient) (env : environment)
    (discovered_agents : registry) (iterations : list iteration) : M unit :=
  match iterations with
  | [] => ret tt
  | this :: rest =>
      fun tr =>
        match (received_msgs <- await (receive this) [] ;;
               process_batch client env discovered_agents received_msgs) tr
        with
        | (Returns _, tr') =>
            if sleep_cancelled this then (Returns tt, tr')
            else queue_loop client env discovered_agents rest tr'
        | (Cancelled, tr') => (Returns tt, tr')
        | (Raises _, tr') =>
            if sleep_cancelled this then (Cancelled, tr')
            else queue_loop client env discovered_agents rest tr'
        end
  end.

(** [process_queue_messages()]: nothing without a client; a cancellation
    that escapes the loop escapes the function, the outer handler catching
    [Exception] only. *)
Definition process_queue_messages
    (service_bus_client : option ServiceBusClient) (env : environment)
    (discovered_agents : registry) (iterations : list iteration) : M unit :=
  match service_bus_client with
  | None => ret tt
  | Some client => queue_loop client env discovered_agents iterations
  end.

(** The agent the processor dispatches a delivered message to, if any. *)
Definition routed_agent (discovered_agents : registry)
    (msg : received_message) : option string :=
  match application_properties msg with
  | Some properties =>
      selected (select_best_agent discovered_agents (message_task msg)
                  (message_preferred_agent properties))
  | None => None
  end.

(** No [await] of the processor is cancelled. *)
Definition never_cancelled (client : ServiceBusClient) (env : environment)
  : Prop :=
  (forall url task user_id, http_post env url task user_id <> Cancelled)
  /\ (forall queue m, send_messages client queue m <> Cancelled)
  /\ (forall msg, complete_message client msg <> Cancelled).

(** The events that settle a message. *)
Definition is_settlement (e : event) : bool :=
  match e with
  | Completed _ | DeadLettered _ _ _ => true
  | _ => false
  end.

Definition settlements (events : list event) : list event :=
  filter is_settlement events.

(** What processing one message does to the queues. *)
Definition message_outcome (discovered_agents : registry)
    (msg : received_message) (events : list event) : Prop :=
  (routed_agent discovered_agents msg = None /\ events = [Completed msg])
  \/ (exists agent r,
        routed_agent discovered_agents msg = Some agent
        /\ events = [Sent "agent-responses" r; Completed msg])
  \/ (exists d, events = [DeadLettered msg "ProcessingError" d])
  \/ (exists r d,
        events = [Sent "agent-responses" r;
                  DeadLettered msg "ProcessingError" d]).

(** The message is settled exactly once by [events]. *)
Definition settled_once (msg : received_message) (events : list event)
  : Prop :=
  settlements events = [Completed msg]
  \/ exists d, settlements events = [DeadLettered msg "ProcessingError" d].

(** The two terminal outcomes as the specification words them, and the
    property that a message has exactly one of them. *)
Definition completed_with_response (events : list event)
    (msg : received_message) : Prop :=
  In (Completed msg) events
  /\ exists r, In (Sent "agent-responses" r) events.

Definition dead_lettered (events : list event) (msg : received_message)
  : Prop :=
  exists reason d, In (DeadLettered msg reason d) events.

Definition one_terminal_outcome (events : list event)
    (msg : received_message) : Prop :=
  (completed_with_response events msg /\ ~ dead_lettered events msg)
  \/ (dead_lettered events msg /\ ~ completed_with_response events msg).

End QueueProcessor.
Export QueueProcessor.

(** ** Response reader: [get_responses] *)

Module ResponseReader.

(** One entry of the ["responses"] list. *)
Record response_record := mk_record {
  r_user_id : string;
  r_response : string;
  r_agent_used : string;
  r_timestamp : string;
  r_message_id : string
}.

(** The returned document. *)
Record responses_page := mk_page {
  total : nat;
  page_user_id : string;
  responses : list response_record
}.

(** [message.application_properties or {}] *)
Definition props_of (message : received_message) : list (string * string) :=
  get_or [] (application_properties message).

Definition msg_user_id (message : received_message) : string :=
  get_or "unknown" (Dict.get "user_id" (props_of message)).

(** [user_id == "all" or msg_user_id == user_id] *)
Definition matches (user_id : string) (message : received_message) : bool :=
  String.eqb user_id "all" || String.eqb (msg_user_id message) user_id.

Definition record_of (message : received_message) : response_record :=
  {| r_user_id := msg_user_id message;
     r_response := body message;
     r_agent_used := get_or "unknown" (Dict.get "agent_used" (props_of message));
     r_timestamp := get_or "N/A" (enqueued_time_utc message);
     r_message_id := message_id message |}.

(** [async for message in receiver:] over what the receiver yields, a
    delivered message or a failure of the read; the iteration ends when
    [deliveries] does (no message within [max_wait_time]).
    [responses] is the list collected so far. *)
Fixpoint receive_loop (client : ServiceBusClient) (user_id : string)
    (max_messages : Z) (deliveries : list (outcome received_message))
    (responses : list response_record) : M (list response_record) :=
  match deliveries with
  | [] => ret responses
  | delivery :: rest =>
      message <- await delivery [] ;;
      let responses :=
        if matches user_id message
        then responses ++ [record_of message]
        else responses in
      fun tr =>
        match await (complete_message client message) [Completed message] tr
        with
        | (Returns _, tr') =>
            if (Z.of_nat (List.length responses) >=? max_messages)%Z
            then (Returns responses, tr')
            else receive_loop client user_id max_messages rest responses tr'
        | (Raises _, tr') =>
            (await (abandon_message client message) [Abandoned message] ;;
             receive_loop client user_id max_messages rest responses) tr'
        | (Cancelled, tr') => (Cancelled, tr')
        end
  end.

(** [get_responses(user_id, max_messages)] *)
Definition get_responses (service_bus_client : option ServiceBusClient)
    (env : environment) (user_id : string) (max_messages : Z)
    (deliveries : list (outcome received_message)) : M responses_page :=
  match service_bus_client with
  | None => raise (HTTPException 503 "Service Bus not available")
  | Some client =>
      try_except
        (responses <- receive_loop client user_id max_messages deliveries [] ;;
         ret {| total := List.length responses;
                page_user_id := user_id;
                responses := responses |})
        (fun e =>
           raise (HTTPException 500
                    ("Failed to fetch responses: " ++ str_exn env e)%string))
  end.

(** The records of the messages of [inspected] that match the filter. *)
Definition matching_records (user_id : string)
    (inspected : list received_message) : list response_record :=
  map record_of (filter (matches user_id) inspected).

(** The reader's tolerance of a read failure as the specification words
    it: after the messages [inspected] the read fails, and the caller
    still gets the records collected from them. *)
Definition keeps_records_on_read_failure (client : ServiceBusClient)
    (env : environment) (user_id : string) (max_messages : Z)
    (inspected : list received_message) (e : exn) : Prop :=
  exists page,
    fst (get_responses (Some client) env user_id max_messages
           (map Returns inspected ++ [Raises e]) [])
    = Returns page
    /\ responses page = matching_records user_id inspected.

End ResponseReader.
Export ResponseReader.

(** ** The routing rules, stated as a table *)

Module Rules.

Inductive category := Burger | Pizza | Illustration | Currency | Travel.

(** Trigger keywords of a category. *)
Definition keywords (c : category) : list string :=
  match c with
  | Burger => ["burger"; "cheeseburger"; "hamburger"]
  | Pizza => ["pizza"; "pizzas"; "margherita"; "pepperoni"]
  | Illustration =>
      ["illustration"; "illustrate"; "draw"; "image"; "picture"; "visual";
       "graphic"]
  | Currency => ["currency"; "exchange"; "convert"]
  | Travel => ["restaurant"; "attraction"; "itinerary"; "trip"; "plan"]
  end.

(** Domain tokens of a category. *)
Definition domain_tokens (c : category) : list string :=
  match c with
  | Burger => ["burger"]
  | Pizza => ["pizza"]
  | Illustration => ["illustrat"]
  | Currency => ["currency"]
  | Travel => ["travel"; "restaurant"; "attraction"]
  end.

(** The categories checked on an agent's name and description, and those
    checked on each skill, in scan order. *)
Definition name_level := [Burger; Pizza; Illustration].
Definition skill_level := [Illustration; Currency; Travel; Burger; Pizza].

Definition name_decision (c : category) : decision :=
  match c with
  | Burger => NameBurger
  | Pizza => NamePizza
  | _ => NameIllustration
  end.

Definition skill_decision (c : category) : decision :=
  match c with
  | Illustration => SkillIllustration
  | Currency => SkillCurrency
  | Travel => SkillTravel
  | Burger => SkillBurger
  | Pizza => SkillPizza
  end.

(** A domain token of [c] appears in [text]. *)
Definition mentions (c : category) (text : string) : bool :=
  any_in (domain_tokens c) text.

(** The category matches the agent through its name or description. *)
Definition name_match (task_lower agent_name : string) (card : agent_card)
    (c : category) : bool :=
  any_in (keywords c) task_lower
  && (mentions c (lower agent_name)
      || mentions c (lower (get_or "" (card_description card)))).

Section SkillTexts.

(** The texts of a skill in which a category's token is looked for. *)
Variable skill_texts : category -> skill -> list string.

(** The category matches the agent through the skill [sk]. *)
Definition skill_match (task_lower : string) (sk : skill) (c : category)
  : bool :=
  any_in (keywords c) task_lower && existsb (mentions c) (skill_texts c sk).

(** The checks on one skill, in scan order, with their verdicts. *)
Definition skill_checks (task_lower : string) (sk : skill)
  : list (decision * bool) :=
  map (fun c => (skill_decision c, skill_match task_lower sk c)) skill_level.

(** The checks on an agent's name and description. *)
Definition name_checks (task_lower agent_name : string) (card : agent_card)
  : list (decision * bool) :=
  map (fun c => (name_decision c, name_match task_lower agent_name card c))
    name_level.

(** Every check on one agent, in scan order. *)
Definition checks (task_lower agent_name : string) (card : agent_card)
  : list (decision * bool) :=
  name_checks task_lower agent_name card
  ++ flat_map (skill_checks task_lower) (router_skills card).

(** Some category matches the agent. *)
Definition agent_matches (task_lower agent_name : string) (card : agent_card)
  : bool :=
  existsb snd (checks task_lower agent_name card).

(** The first check of the agent that succeeds. *)
Definition first_rule (task_lower agent_name : string) (card : agent_card)
  : option decision :=
  option_map fst (find snd (checks task_lower agent_name card)).

(** The first agent, in registry order, that some category matches. *)
Definition first_match (task_lower : string) (agents : registry)
  : option (string * agent_card) :=
  find (fun entry => agent_matches task_lower (fst entry) (snd entry)) agents.

(** The router as the rules describe it, for a task without an applicable
    preferred agent. *)
Definition route (agents : registry) (task : string)
  : option string * decision :=
  match first_match (lower task) agents with
  | Some (agent_name, card) =>
      (Some agent_name,
       get_or DefaultAgent (first_rule (lower task) agent_name card))
  | None =>
      match agents with
      | (agent_name, _) :: _ => (Some agent_name, DefaultAgent)
      | [] => (None, NoAgents)
      end
  end.

End SkillTexts.

(** The rule as the specification words it: a skill-level category looks
    for its token in the skill's name and description. *)
Definition name_and_description (c : category) (sk : skill) : list string :=
  [lower (get_or "" (skill_name sk));
   lower (get_or "" (skill_description sk))].

(** The rule as the router applies it: the travel category looks at the
    skill's name only. *)
Definition as_routed (c : category) (sk : skill) : list string :=
  match c with
  | Travel => [lower (get_or "" (skill_name sk))]
  | _ => name_and_description c sk
  end.


End Rules.
Import Rules.

(** ** Further operations: refresh, startup, health *)

Module Refresh.

(** The document [trigger_discovery()] returns. *)
Record discovery_report := mk_report {
  report_status : string;
  report_agents_found : nat;
  report_agents : list string
}.

(** [trigger_discovery()]: a pass of discovery on the registry as it is,
    then the report. *)
Definition trigger_discovery (env : environment)
    (AGENT_ENDPOINTS : list string) (discovered_agents : registry)
  : outcome discovery_report * registry :=
  match discover_all_agents env AGENT_ENDPOINTS discovered_agents with
  | (Returns _, discovered_agents) =>
      (Returns {| report_status := "discovery_complete";
                  report_agents_found := List.length discovered_agents;
                  report_agents := Dict.keys discovered_agents |},
       discovered_agents)
  | (Raises e, discovered_agents) => (Raises e, discovered_agents)
  | (Cancelled, discovered_agents) => (Cancelled, discovered_agents)
  end.

End Refresh.
Export Refresh.

Module Startup.

(** [setup_service_bus()] at startup: the value it leaves in the global
    [service_bus_client].  [connect] is [get_azure_credential()] followed
    by [ServiceBusClient(...)], which returns a client or raises. *)
Definition setup_service_bus (SERVICEBUS_NAMESPACE : string)
    (connect : string -> exn + ServiceBusClient)
  : option ServiceBusClient :=
  if negb (truthy SERVICEBUS_NAMESPACE) then None
  else
    match connect SERVICEBUS_NAMESPACE with
    | inr client => Some client
    | inl _ => None
    end.

(** The document of [health()]. *)
Record health_report := mk_health {
  health_status : string;
  agents_discovered : nat;
  service_bus_connected : bool
}.

Definition health (discovered_agents : registry)
    (service_bus_client : option ServiceBusClient) : health_report :=
  {| health_status := "healthy";
     agents_discovered := List.length discovered_agents;
     service_bus_connected :=
       match service_bus_client with Some _ => true | None => false end |}.

(** The globals after the startup half of [lifespan]: discovery from an
    empty registry, then the Service Bus setup, then the queue processor
    started when there is a client. *)
Record app_state := mk_state {
  app_agents : registry;
  app_client : option ServiceBusClient;
  processor_started : bool
}.

Definition startup (env : environment) (AGENT_ENDPOINTS : list string)
    (SERVICEBUS_NAMESPACE : string)
    (connect : string -> exn + ServiceBusClient) : outcome app_state :=
  match discover_all_agents env AGENT_ENDPOINTS [] with
  | (Returns _, discovered_agents) =>
      let service_bus_client :=
        setup_service_bus SERVICEBUS_NAMESPACE connect in
      Returns {| app_agents := discovered_agents;
                 app_client := service_bus_client;
                 processor_started :=
                   match service_bus_client with
                   | Some _ => true
                   | None => false
                   end |}
  | (Raises e, _) => Raises e
  | (Cancelled, _) => Cancelled
  end.

End Startup.
Export Startup.

(** ** Predicates of the further properties *)

Module Shapes.

(** The task contains no trigger keyword of any category. *)
Definition no_trigger_keyword (task : string) : Prop :=
  forall c, any_in (keywords c) (lower task) = false.

(** A registry entry as discovery writes it: keyed by the name of its
    card, with the endpoint it came from and the base URL derived from
    that endpoint. *)
Definition entry_ok (agent_name : string) (card : agent_card) : Prop :=
  exists url,
    truthy url = true
    /\ _discovery_url card = Some url
    /\ _base_url card = Some (replace well_known "" url)
    /\ agent_name = get_or "unknown" (card_name card).


(** The events the queue processor can cause while it handles [msg]. *)
Definition processor_event (msg : received_message) (e : event) : Prop :=
  (exists r, e = Sent "agent-responses" r)
  \/ e = Completed msg
  \/ exists d, e = DeadLettered msg "ProcessingError" d.

(** The messages of the batches that were received. *)
Definition delivered_messages
    (receives : list (outcome (list received_message)))
  : list received_message :=
  flat_map (fun receive =>
              match receive with Returns batch => batch | _ => [] end)
    receives.

(** The events the response reader can cause: a delivered message is
    completed or abandoned. *)
Definition reader_event (deliveries : list (outcome received_message))
    (e : event) : Prop :=
  exists m, In (Returns m) deliveries /\ (e = Completed m \/ e = Abandoned m).

(** The page [get_responses] returns for the records [found]. *)
Definition page_of (user_id : string) (found : list response_record)
  : responses_page :=
  {| total := List.length found; page_user_id := user_id;
     responses := found |}.

End Shapes.
Import Shapes.

(** ** Sample data *)

Module Samples.

Definition plain_card (description : string) : agent_card :=
  {| card_name := None; card_description := Some description;
     card_skills := None; card_capabilities := None;
     _discovery_url := None; _base_url := None; other_keys := [] |}.

Definition named_skill (name description : string) : skill :=
  {| skill_name := Some name; skill_description := Some description;
     skill_examples := [] |}.

(** A card whose skills are under ["capabilities"]. *)
Definition a2a_card (description : string) (skills : list skill)
  : agent_card :=
  {| card_name := None; card_description := Some description;
     card_skills := None;
     card_capabilities := Some {| cap_skills := Some skills |};
     _discovery_url := None; _base_url := None; other_keys := [] |}.

(** The registry of the specification's first example. *)
Definition burger_and_travel : registry :=
  [("burger-agent", plain_card "handles burger orders");
   ("travel-agent", plain_card "trip planning")].

(** An agent that no rule mentions, then one whose only travel token is in
    a skill's description. *)
Definition helper_and_guide : registry :=
  [("helper-agent", plain_card "general helper");
   ("guide-agent",
    a2a_card "city guide" [named_skill "planner" "travel tips"])].

(** A descriptor document as an endpoint serves it. *)
Definition document (name description : string)
    (skills : option (list skill)) (caps : option capabilities)
  : agent_card :=
  {| card_name := Some name; card_description := Some description;
     card_skills := skills; card_capabilities := caps;
     _discovery_url := None; _base_url := None; other_keys := [] |}.

Definition currency_exchange : skill :=
  {| skill_name := Some "currency_exchange"; skill_description := None;
     skill_examples := [] |}.

Definition helper_doc : agent_card :=
  document "helper-agent" "general helper" None None.

(** The travel agent's document in the two shapes: skills at the top level,
    and skills under ["capabilities"]. *)
Definition travel_doc_top_level : agent_card :=
  document "travel-agent" "city guide" (Some [currency_exchange]) None.

Definition travel_doc_nested : agent_card :=
  document "travel-agent" "city guide" None
    (Some {| cap_skills := Some [currency_exchange] |}).

Definition helper_endpoint := "http://helper-agent-service/.well-known/agent.json".
Definition travel_endpoint := "http://travel-agent-service/.well-known/agent.json".
Definition burger_endpoint := "http://burger-agent-service/.well-known/agent.json".

(** The text of an exception, for the sample environments. *)
Definition exn_message (e : exn) : string :=
  match e with
  | ValueError m | AttributeError m | TransportError m => m
  | HTTPException _ detail => detail
  end.

(** An environment in which the helper endpoint and the travel endpoint
    answer, the latter with [travel_doc], every other fetch fails, and
    every agent answers [reply]. *)
Definition sample_env (travel_doc : agent_card) (reply : outcome json)
  : environment :=
  {| http_get := fun url =>
       if String.eqb url helper_endpoint then Returns helper_doc
       else if String.eqb url travel_endpoint then Returns travel_doc
       else Raises (TransportError "connection refused");
     http_post := fun _ _ _ => reply;
     str_json := fun _ => "{}";
     str_exn := exn_message |}.

Definition done_reply : outcome json :=
  Returns (JObj [("result", JStr "done")]).

(** A registry left by an earlier pass in which the burger endpoint
    answered. *)
Definition earlier_registry : registry :=
  [("burger-agent",
    stored_card burger_endpoint
      (document "burger-agent" "handles burger orders" None None))].

(** A Service Bus client whose operations all succeed. *)
Definition reliable_client : ServiceBusClient :=
  {| send_messages := fun _ _ => Returns tt;
     complete_message := fun _ => Returns tt;
     dead_letter_message := fun _ _ _ => Returns tt;
     abandon_message := fun _ => Returns tt |}.

(** A delivered message with its [user_id] property. *)
Definition delivered (id text user : string) : received_message :=
  {| message_id := id; body := text;
     application_properties :=
       Some [("user_id", user); ("preferred_agent", "")];
     enqueued_time_utc := None |}.

(** An agent's reply that is a JSON array. *)
Definition array_reply : outcome json := Returns (JArr [JStr "done"]).

(** The registry after a pass over the helper and travel endpoints. *)
Definition discovered (reply : outcome json) : registry :=
  snd (discover_all_agents (sample_env travel_doc_nested reply)
         [helper_endpoint; travel_endpoint] []).

(** A response as the response queue delivers it. *)
Definition published (id text user : string) : received_message :=
  {| message_id := id; body := text;
     application_properties :=
       Some [("user_id", user); ("agent_used", "travel-agent");
             ("original_task", "Convert 100 USD to EUR")];
     enqueued_time_utc := Some "2025-01-01 10:00:00+00:00" |}.

(** A client on which completing the message "r2" fails. *)
Definition flaky_client : ServiceBusClient :=
  {| send_messages := fun _ _ => Returns tt;
     complete_message := fun m =>
       if String.eqb (message_id m) "r2"
       then Raises (TransportError "lock lost")
       else Returns tt;
     dead_letter_message := fun _ _ _ => Returns tt;
     abandon_message := fun _ => Returns tt |}.

End Samples.
Import Samples.

Module MoreSamples.

(** A client whose dead-letter call fails. *)
Definition failing_dead_letter : ServiceBusClient :=
  {| send_messages := fun _ _ => Returns tt;
     complete_message := fun _ => Returns tt;
     dead_letter_message := fun _ _ _ =>
       Raises (TransportError "lock lost");
     abandon_message := fun _ => Returns tt |}.

(** A delivered message without application properties. *)
Definition bare_message (id text : string) : received_message :=
  {| message_id := id; body := text; application_properties := None;
     enqueued_time_utc := None |}.

(** An environment in which no endpoint answers. *)
Definition down_env : environment :=
  {| http_get := fun _ => Raises (TransportError "connection refused");
     http_post := fun _ _ _ => done_reply;
     str_json := fun _ => "{}";
     str_exn := exn_message |}.

(** An endpoint whose base URL has a path. *)
Definition gateway_endpoint :=
  "http://gateway:8080/a2a/illustration_agent/.well-known/agent.json".

(** A validation of [TaskResponse.result] that accepts strings only. *)
Definition strict_str (value : json) : exn + string :=
  inl (ValueError "Input should be a valid string").

End MoreSamples.
Import MoreSamples.

(** * Properties *)

(** ** The string operations and the specification's examples *)

Example lower_task :
  lower "Convert 100 USD to EUR" = "convert 100 usd to eur".
Proof. reflexivity. Qed.

Example contains_inside :
  contains "burger" "i want 2 cheeseburgers" = true
  /\ contains "pizza" "" = false
  /\ contains "" "plan" = true.
Proof. repeat split. Qed.

Example strip_endpoint :
  strip "  http://travel-agent-service/.well-known/agent.json  "
  = travel_endpoint.
Proof. reflexivity. Qed.

Example base_url_of_endpoint :
  replace well_known "" travel_endpoint = "http://travel-agent-service".
Proof. reflexivity. Qed.

Example replace_every_occurrence : replace "ab" "-" "xababyab" = "x--y-".
Proof. reflexivity. Qed.

Example cheeseburgers_go_to_burger_agent :
  select_best_agent burger_and_travel "I want 2 cheeseburgers" None
  = Some "burger-agent".
Proof. reflexivity. Qed.

Example ghost_agent_not_found :
  fst (call_agent (sample_env travel_doc_nested done_reply) []
         "ghost-agent" "hello" "ana" [])
  = Raises (ValueError "Agent 'ghost-agent' not found").
Proof. reflexivity. Qed.

Example dict_set_keeps_place :
  Dict.keys (Dict.set "a" 3 [("a", 1); ("b", 2)]) = ["a"; "b"]
  /\ Dict.keys (Dict.set "c" 3 [("a", 1); ("b", 2)]) = ["a"; "b"; "c"].
Proof. split; reflexivity. Qed.

(** ** Routing *)

Section RouterFacts.

Lemma any_in_one (t x : string) : any_in [t] x = contains t x.
Proof. unfold any_in; cbn. apply orb_false_r. Qed.

Lemma any_in_three (a b c x : string) :
  any_in [a; b; c] x = contains a x || contains b x || contains c x.
Proof. unfold any_in; cbn. rewrite orb_false_r, orb_assoc. reflexivity. Qed.

Lemma find_app {A : Type} (p : A -> bool) (l1 l2 : list A) :
  find p (l1 ++ l2) =
  match find p l1 with Some x => Some x | None => find p l2 end.
Proof.
  induction l1 as [|a l1 IH]; cbn; [reflexivity|].
  destruct (p a); [reflexivity | exact IH].
Qed.

Lemma find_existsb {A : Type} (p : A -> bool) (l : list A) :
  existsb p l = match find p l with Some _ => true | None => false end.
Proof.
  induction l as [|a l IH]; cbn; [reflexivity|].
  destruct (p a); [reflexivity | exact IH].
Qed.

End RouterFacts.

(** Case analysis on the keyword and token tests of a goal. *)
Ltac decide_checks :=
  repeat first
    [ reflexivity
    | discriminate
    | progress cbn [andb orb option_map fst snd find]
    | progress intros
    | match goal with
      | |- context [any_in ?k ?t] => destruct (any_in k t)
      | |- context [contains ?k ?t] => destruct (contains k t)
      end ].

(** Unfolds the table of rules down to those tests. *)
Ltac expose_checks :=
  unfold skill_match, name_match, mentions, as_routed, name_and_description;
  cbn [domain_tokens keywords existsb];
  fold burger_keywords pizza_keywords illustration_keywords
       currency_keywords travel_keywords;
  rewrite ?any_in_three, ?any_in_one, ?orb_false_r.

(** The per-skill loop follows the table, once the name-level burger and
    pizza checks have failed. *)
Lemma scan_skills_rules (tl n : string) (skills : list skill) :
  any_in burger_keywords tl && contains "burger" (lower n) = false ->
  any_in pizza_keywords tl && contains "pizza" (lower n) = false ->
  scan_skills tl n skills =
  option_map fst (find snd (flat_map (skill_checks as_routed tl) skills)).
Proof.
  intros Hb Hp.
  induction skills as [|sk rest IH]; [reflexivity|].
  cbn [scan_skills flat_map].
  rewrite find_app, IH; clear IH.
  generalize (find snd (flat_map (skill_checks as_routed tl) rest)).
  intros tail.
  unfold skill_checks.
  cbn [map skill_level skill_decision].
  expose_checks.
  revert Hb Hp.
  decide_checks.
Qed.

(** The scan of one agent returns the first check of the table that holds. *)
Lemma scan_agent_rules (tl n : string) (card : agent_card) :
  scan_agent tl n card = first_rule as_routed tl n card.
Proof.
  unfold scan_agent, first_rule, checks.
  rewrite find_app.
  destruct (any_in burger_keywords tl && contains "burger" (lower n)) eqn:Hb.
  - unfold name_checks. cbn [map name_level name_decision]. expose_checks.
    revert Hb. decide_checks.
  - destruct (any_in pizza_keywords tl && contains "pizza" (lower n)) eqn:Hp.
    + unfold name_checks. cbn [map name_level name_decision]. expose_checks.
      revert Hb Hp. decide_checks.
    + rewrite (scan_skills_rules tl n _ Hb Hp).
      generalize
        (find snd
           (flat_map (skill_checks as_routed tl) (router_skills card))).
      intros tail.
      unfold name_checks. cbn [map name_level name_decision]. expose_checks.
      revert Hb Hp. decide_checks.
Qed.

Lemma first_rule_matches (st : category -> skill -> list string)
    (tl n : string) (card : agent_card) :
  agent_matches st tl n card =
  match first_rule st tl n card with Some _ => true | None => false end.
Proof.
  unfold agent_matches, first_rule.
  rewrite find_existsb.
  destruct (find snd (checks st tl n card)); reflexivity.
Qed.

(** The loop over the registry stops at the first agent that matches. *)
Lemma scan_agents_rules (tl : string) (agents : registry) :
  scan_agents tl agents =
  match first_match as_routed tl agents with
  | Some (n, card) =>
      Some (n, get_or DefaultAgent (first_rule as_routed tl n card))
  | None => None
  end.
Proof.
  induction agents as [|[n card] rest IH]; [reflexivity|].
  cbn [scan_agents first_match find fst snd].
  rewrite first_rule_matches, scan_agent_rules.
  destruct (first_rule as_routed tl n card) eqn:Hrule; [| exact IH].
  cbn [fst snd]. rewrite Hrule. reflexivity.
Qed.

(** What "some category matches the agent" says. *)
Lemma agent_matches_iff (st : category -> skill -> list string)
    (tl n : string) (card : agent_card) :
  agent_matches st tl n card = true <->
  (exists c, In c name_level /\ name_match tl n card c = true)
  \/ (exists sk c, In sk (router_skills card) /\ In c skill_level
                   /\ skill_match st tl sk c = true).
Proof.
  unfold agent_matches, checks, name_checks.
  rewrite existsb_app, orb_true_iff, !existsb_exists.
  split.
  - intros [[[d b] [Hin Hb]] | [[d b] [Hin Hb]]].
    + left. apply in_map_iff in Hin as [c [Hc Hin]].
      exists c. inversion Hc; subst. split; [exact Hin | exact Hb].
    + right. apply in_flat_map in Hin as [sk [Hsk Hin]].
      apply in_map_iff in Hin as [c [Hc Hin]].
      exists sk, c. inversion Hc; subst. repeat split; assumption.
  - intros [[c [Hin Hb]] | [sk [c [Hsk [Hin Hb]]]]].
    + left. exists (name_decision c, name_match tl n card c).
      split; [| exact Hb]. apply in_map_iff. exists c. split; auto.
    + right. exists (skill_decision c, skill_match st tl sk c).
      split; [| exact Hb]. apply in_flat_map. exists sk. split; [exact Hsk|].
      apply in_map_iff. exists c. split; auto.
Qed.

(** A match under the router's rule is a match under the rule as worded. *)
Lemma as_routed_matches_as_worded (tl n : string) (card : agent_card) :
  agent_matches as_routed tl n card = true ->
  agent_matches name_and_description tl n card = true.
Proof.
  rewrite !agent_matches_iff.
  intros [H | [sk [c [Hsk [Hc Hm]]]]]; [left; exact H | right].
  exists sk, c. repeat split; try assumption.
  revert Hm. unfold skill_match.
  destruct (any_in (keywords c) tl); [cbn [andb] | discriminate].
  destruct c; cbn [as_routed]; try (intros H; exact H).
  cbn [name_and_description existsb]. intros H.
  rewrite orb_false_r in H. rewrite H. reflexivity.
Qed.

(** Without an applicable preferred agent the router computes [route]
    under the rule [as_routed]. *)
Lemma router_follows_rules (agents : registry) (task : string)
    (preferred : option string) :
  preferred_applies agents preferred = false ->
  select_best_agent_logged agents task preferred
  = route as_routed agents task.
Proof.
  intros Hpref.
  unfold select_best_agent_logged, route.
  rewrite Hpref, scan_agents_rules.
  destruct (first_match as_routed (lower task) agents) as [[n card]|];
    [reflexivity|].
  destruct agents as [|[n card] rest]; reflexivity.
Qed.




(** C5.  A supplied (non-empty) preferred agent that is a key of the
    registry is returned, whatever the task, by the branch that precedes
    all keyword matching. *)
Theorem preferred_agent_selected (agents : registry) (task p : string) :
  p <> "" ->
  Dict.mem p agents = true ->
  select_best_agent_logged agents task (Some p) = (Some p, UsingPreferred)
  /\ select_best_agent agents task (Some p) = Some p.
Proof.
  intros Hp Hmem.
  unfold select_best_agent, select_best_agent_logged, preferred_applies.
  rewrite Hmem.
  destruct p; [contradiction Hp; reflexivity|].
  split; reflexivity.
Qed.

Lemma preferred_agent_selected_witness :
  select_best_agent burger_and_travel "I want 2 cheeseburgers"
    (Some "travel-agent") = Some "travel-agent".
Proof.
  apply (preferred_agent_selected burger_and_travel
           "I want 2 cheeseburgers" "travel-agent").
  - discriminate.
  - reflexivity.
Defined.

(** Without a preferred agent and without a match under the router's rule,
    the first key of the registry is returned. *)
Lemma default_agent_when_nothing_routed (agents : registry) (task : string) :
  (forall n card, In (n, card) agents ->
                  agent_matches as_routed (lower task) n card = false) ->
  select_best_agent agents task None = hd_error (Dict.keys agents).
Proof.
  intros Hnone.
  unfold select_best_agent.
  rewrite (router_follows_rules agents task None eq_refl).
  unfold route.
  destruct (first_match as_routed (lower task) agents) as [[n card]|] eqn:Hf.
  - apply find_some in Hf as [Hin Hm]. cbn [fst snd] in Hm.
    rewrite (Hnone n card Hin) in Hm. discriminate.
  - destruct agents as [|[n card] rest]; reflexivity.
Qed.

(** The router returns no agent exactly when the registry is empty. *)
Lemma no_agent_iff_empty (agents : registry) (task : string)
    (preferred : option string) :
  select_best_agent agents task preferred = None <-> agents = [].
Proof.
  unfold select_best_agent.
  destruct (preferred_applies agents preferred) eqn:Hpref.
  - unfold select_best_agent_logged. rewrite Hpref. cbn [fst].
    destruct preferred as [p|]; [| discriminate Hpref].
    split; [discriminate|].
    intros ->. cbn in Hpref. rewrite andb_false_r in Hpref. discriminate.
  - rewrite (router_follows_rules agents task preferred Hpref).
    unfold route.
    destruct (first_match as_routed (lower task) agents) as [[n card]|] eqn:Hf.
    + split; [discriminate|]. intros ->. discriminate Hf.
    + destruct agents as [|[n card] rest]; cbn [fst]; split;
        congruence.
Qed.

(** C6.  Without a preferred agent, when no category's keywords and token
    match any agent, the router returns the first agent of the registry in
    iteration order; and it returns no agent exactly when the registry is
    empty. *)
Theorem default_agent_when_no_match (agents : registry) (task : string) :
  ((forall n card, In (n, card) agents ->
      agent_matches name_and_description (lower task) n card = false) ->
   select_best_agent agents task None = hd_error (Dict.keys agents))
  /\ (forall preferred,
        select_best_agent agents task preferred = None <-> agents = []).
Proof.
  split.
  - intros Hnone. apply default_agent_when_nothing_routed.
    intros n card Hin.
    destruct (agent_matches as_routed (lower task) n card) eqn:Hm;
      [| reflexivity].
    apply as_routed_matches_as_worded in Hm.
    rewrite (Hnone n card Hin) in Hm. discriminate.
  - intros preferred. apply no_agent_iff_empty.
Qed.

Lemma default_agent_when_no_match_witness :
  select_best_agent burger_and_travel "what time is it" None
  = Some "burger-agent".
Proof.
  apply (default_agent_when_no_match burger_and_travel "what time is it").
  intros n card [H | [H | []]]; inversion H; reflexivity.
Defined.

(** ** Discovery *)

Section DictFacts.
Context {V : Type}.

Lemma get_set_same (k : string) (v : V) (d : Dict.dict V) :
  Dict.get k (Dict.set k v d) = Some v.
Proof.
  induction d as [|[k' v'] d IH]; cbn.
  - rewrite String.eqb_refl. reflexivity.
  - destruct (String.eqb k k') eqn:Hk; cbn; rewrite Hk; [reflexivity | exact IH].
Qed.

Lemma get_set_other (k k' : string) (v : V) (d : Dict.dict V) :
  k <> k' -> Dict.get k (Dict.set k' v d) = Dict.get k d.
Proof.
  intros Hne.
  assert (Hkk : String.eqb k k' = false) by (apply String.eqb_neq; exact Hne).
  induction d as [|[k0 v0] d IH]; cbn.
  - rewrite Hkk. reflexivity.
  - destruct (String.eqb k' k0) eqn:Hk0; cbn.
    + apply String.eqb_eq in Hk0. subst k0. rewrite Hkk. reflexivity.
    + rewrite IH. reflexivity.
Qed.

(** Writing a list of entries, in order. *)
Lemma get_after_writes (writes : list (string * V)) (d : Dict.dict V)
    (k : string) (v : V) :
  Dict.get k (fold_left (fun d kv => Dict.set (fst kv) (snd kv) d) writes d)
  = Some v ->
  Dict.get k d = Some v \/ In (k, v) writes.
Proof.
  revert d. induction writes as [|[k' v'] writes IH]; intros d; cbn.
  - intros H. left. exact H.
  - intros H. apply IH in H as [H | H]; [| right; right; exact H].
    destruct (String.eqb k k') eqn:Hk.
    + apply String.eqb_eq in Hk. subst k'.
      rewrite get_set_same in H. inversion H. right. left. reflexivity.
    + apply String.eqb_neq in Hk.
      rewrite (get_set_other k k' v' d Hk) in H. left. exact H.
Qed.

Lemma mem_after_writes (writes : list (string * V)) (d : Dict.dict V)
    (k : string) :
  Dict.mem k d = true \/ In k (map fst writes) ->
  Dict.mem k
    (fold_left (fun d kv => Dict.set (fst kv) (snd kv) d) writes d) = true.
Proof.
  revert d. induction writes as [|[k' v'] writes IH]; intros d; cbn.
  - intros [H | []]. exact H.
  - intros H. apply IH.
    destruct (String.eqb k k') eqn:Hk.
    + apply String.eqb_eq in Hk. subst k'. left.
      unfold Dict.mem. rewrite get_set_same. reflexivity.
    + apply String.eqb_neq in Hk.
      destruct H as [H | [H | H]].
      * left. unfold Dict.mem. rewrite (get_set_other k k' v' d Hk). exact H.
      * contradiction Hk. symmetry. exact H.
      * right. exact H.
Qed.

End DictFacts.

Section DiscoveryFacts.
Variable env : environment.

Let write (d : registry) (kv : string * agent_card) : registry :=
  Dict.set (fst kv) (snd kv) d.

(** A pass leaves the registry it found, with its writes applied in
    order. *)
Lemma discover_all_as_writes (endpoints : list string) (before : registry) :
  snd (discover_all_agents env endpoints before)
  = fold_left write (stored_in_pass env endpoints) before.
Proof.
  revert before.
  induction endpoints as [|endpoint rest IH]; intros before; [reflexivity|].
  cbn [discover_all_agents stored_in_pass].
  destruct (negb (truthy (strip endpoint))); [apply IH|].
  unfold discover_agent.
  destruct (http_get env (strip endpoint)) as [card| |];
    [| apply IH | reflexivity].
  destruct (card_truthy card); [| apply IH].
  cbn [fold_left]. apply IH.
Qed.

Lemma discover_all_never_raises (endpoints : list string)
    (before : registry) (e : exn) :
  fst (discover_all_agents env endpoints before) <> Raises e.
Proof.
  revert before.
  induction endpoints as [|endpoint rest IH]; intros before;
    [discriminate|].
  cbn [discover_all_agents].
  destruct (negb (truthy (strip endpoint))); [apply IH|].
  unfold discover_agent.
  destruct (http_get env (strip endpoint)) as [card| |];
    [| apply IH | discriminate].
  destruct (card_truthy card); apply IH.
Qed.

Lemma discover_all_returns (endpoints : list string) (before : registry) :
  (forall url, http_get env url <> Cancelled) ->
  fst (discover_all_agents env endpoints before) = Returns tt.
Proof.
  intros Hlive. revert before.
  induction endpoints as [|endpoint rest IH]; intros before;
    [reflexivity|].
  cbn [discover_all_agents].
  destruct (negb (truthy (strip endpoint))); [apply IH|].
  unfold discover_agent.
  destruct (http_get env (strip endpoint)) as [card| |] eqn:Hget;
    [| apply IH | contradiction (Hlive _ Hget)].
  destruct (card_truthy card); apply IH.
Qed.

(** Every write of a pass comes from an endpoint whose fetch returned. *)
Lemma stored_in_pass_sound (endpoints : list string) (n : string)
    (card : agent_card) :
  In (n, card) (stored_in_pass env endpoints) ->
  exists endpoint doc,
    In endpoint endpoints
    /\ http_get env (strip endpoint) = Returns doc
    /\ n = get_or "unknown" (card_name doc)
    /\ card = stored_card (strip endpoint) doc.
Proof.
  induction endpoints as [|endpoint rest IH]; [intros []|].
  cbn [stored_in_pass].
  assert (Hrest : In (n, card) (stored_in_pass env rest) ->
                  exists endpoint0 doc,
                    In endpoint0 (endpoint :: rest)
                    /\ http_get env (strip endpoint0) = Returns doc
                    /\ n = get_or "unknown" (card_name doc)
                    /\ card = stored_card (strip endpoint0) doc).
  { intros H. destruct (IH H) as [e0 [doc [Hin Hrest]]].
    exists e0, doc. split; [right; exact Hin | exact Hrest]. }
  destruct (negb (truthy (strip endpoint))); [exact Hrest|].
  destruct (http_get env (strip endpoint)) as [doc| |] eqn:Hget;
    [| exact Hrest | intros []].
  destruct (card_truthy doc); [| exact Hrest].
  intros [H | H]; [| exact (Hrest H)].
  inversion H; subst.
  exists endpoint, doc. repeat split; [left; reflexivity | exact Hget].
Qed.

(** Every endpoint that answers with a document that is not empty is
    written, when the pass is not cancelled. *)
Lemma stored_in_pass_complete (endpoints : list string) (B : string)
    (doc : agent_card) :
  (forall url, http_get env url <> Cancelled) ->
  In B endpoints ->
  truthy (strip B) = true ->
  http_get env (strip B) = Returns doc ->
  card_truthy doc = true ->
  In (get_or "unknown" (card_name doc), stored_card (strip B) doc)
    (stored_in_pass env endpoints).
Proof.
  intros Hlive Hin Hurl Hget Hdoc.
  induction endpoints as [|endpoint rest IH]; [contradiction Hin|].
  cbn [stored_in_pass].
  destruct Hin as [-> | Hin].
  - rewrite Hurl, Hget, Hdoc. left. reflexivity.
  - specialize (IH Hin).
    destruct (negb (truthy (strip endpoint))); [exact IH|].
    destruct (http_get env (strip endpoint)) as [card| |] eqn:Hg;
      [| exact IH | contradiction (Hlive _ Hg)].
    destruct (card_truthy card); [right|]; exact IH.
Qed.

End DiscoveryFacts.

(** C9, as amended.  A pass of discovery never raises, and returns unless
    it is cancelled.  When it is not cancelled, every endpoint whose fetch
    returns a document that is not empty has its agent's name in the
    registry afterwards, whatever the other endpoints did; and for an
    endpoint whose fetch fails, the pass stores nothing: an entry
    discovered from it is in the registry afterwards only if it was there
    before the pass. *)
Theorem discovery_skips_failed_endpoints (env : environment)
    (endpoints : list string) (before : registry) :
  let after := discover_all_agents env endpoints before in
  (forall e, fst after <> Raises e)
  /\ ((forall url, http_get env url <> Cancelled) ->
      fst after = Returns tt
      /\ forall B docB,
           In B endpoints -> truthy (strip B) = true ->
           http_get env (strip B) = Returns docB ->
           card_truthy docB = true ->
           Dict.mem (get_or "unknown" (card_name docB)) (snd after) = true)
  /\ (forall A n card,
        (forall doc, http_get env (strip A) <> Returns doc) ->
        Dict.get n (snd after) = Some card ->
        _discovery_url card = Some (strip A) ->
        Dict.get n before = Some card).
Proof.
  cbv zeta. rewrite discover_all_as_writes.
  split; [| split].
  - intros e. apply discover_all_never_raises.
  - intros Hlive. split; [apply discover_all_returns; exact Hlive|].
    intros B docB Hin Hurl Hget Hdoc.
    apply mem_after_writes. right.
    apply in_map_iff.
    exists (get_or "unknown" (card_name docB), stored_card (strip B) docB).
    split; [reflexivity|].
    apply stored_in_pass_complete; assumption.
  - intros A n card Hfail Hget Hurl.
    apply get_after_writes in Hget as [Hget | Hin]; [exact Hget|].
    apply stored_in_pass_sound in Hin as [E [doc [_ [Hdoc [_ ->]]]]].
    cbn in Hurl. inversion Hurl as [Heq]. rewrite Heq in Hdoc.
    contradiction (Hfail doc Hdoc).
Qed.

Lemma discovery_skips_failed_endpoints_witness :
  Dict.mem "travel-agent"
    (snd (discover_all_agents (sample_env travel_doc_nested done_reply)
            [burger_endpoint; travel_endpoint] [])) = true.
Proof.
  destruct (discovery_skips_failed_endpoints
              (sample_env travel_doc_nested done_reply)
              [burger_endpoint; travel_endpoint] [])
    as [_ [Hlive _]].
  refine (proj2 (Hlive _) travel_endpoint travel_doc_nested _ _ _ _).
  - intros url. cbn.
    destruct (String.eqb url helper_endpoint); [discriminate|].
    destruct (String.eqb url travel_endpoint); discriminate.
  - right. left. reflexivity.
  - reflexivity.
  - reflexivity.
  - reflexivity.
Defined.

(** C9, as worded, fails on a refresh: the burger endpoint answered in an
    earlier pass and fails in this one, and its agent is still in the
    registry afterwards. *)
Lemma stale_agent_survives_failed_fetch :
  ~ has_b_not_a (sample_env travel_doc_nested done_reply)
      [burger_endpoint; travel_endpoint] earlier_registry.
Proof.
  intros H.
  destruct (H burger_endpoint travel_endpoint
              (TransportError "connection refused") travel_doc_nested)
    as [_ [_ Hnot]].
  - left. reflexivity.
  - right. left. reflexivity.
  - reflexivity.
  - reflexivity.
  - apply (Hnot "burger-agent"
             (stored_card burger_endpoint
                (document "burger-agent" "handles burger orders" None None)));
      reflexivity.
Qed.

(** C3: the code does not do what the claim says.  [discover_agent] takes
    the first non-empty of the two skill lists, for either shape of the
    travel agent's document; the router reads the nested list only.  With
    the skill "currency_exchange" under ["capabilities"] the task
    "Convert 100 USD to EUR" goes to the travel agent by the skill-level
    currency rule; with the same skill at the top level no rule matches
    and the task goes to the first agent of the registry. *)
Theorem top_level_skills_not_routed :
  let pass doc :=
    snd (discover_all_agents (sample_env doc done_reply)
           [helper_endpoint; travel_endpoint] []) in
  discover_agent_skills travel_doc_top_level = [currency_exchange]
  /\ discover_agent_skills travel_doc_nested = [currency_exchange]
  /\ select_best_agent_logged (pass travel_doc_nested)
       "Convert 100 USD to EUR" None
     = (Some "travel-agent", SkillCurrency)
  /\ select_best_agent_logged (pass travel_doc_top_level)
       "Convert 100 USD to EUR" None
     = (Some "helper-agent", DefaultAgent).
Proof. repeat split. Qed.

(** ** Dispatch *)

Lemma call_agent_keeps_trace (env : environment) (agents : registry)
    (agent_name task user_id : string) (tr : list event) :
  snd (call_agent env agents agent_name task user_id tr) = tr.
Proof.
  unfold call_agent.
  destruct (Dict.get agent_name agents) as [card|]; [| reflexivity].
  destruct (negb (truthy (get_or "" (_base_url card)))); [reflexivity|].
  unfold try_except, bind, await, ret, raise.
  destruct (http_post env _ task user_id) as [reply| |]; cbn;
    rewrite ?app_nil_r; try reflexivity.
  destruct reply; reflexivity.
Qed.

Lemma call_agent_not_cancelled (env : environment) (agents : registry)
    (agent_name task user_id : string) (tr : list event) :
  (forall url task user_id, http_post env url task user_id <> Cancelled) ->
  fst (call_agent env agents agent_name task user_id tr) <> Cancelled.
Proof.
  intros Hlive. unfold call_agent.
  destruct (Dict.get agent_name agents) as [card|]; [| discriminate].
  destruct (negb (truthy (get_or "" (_base_url card)))); [discriminate|].
  unfold try_except, bind, await, ret, raise.
  destruct (http_post env _ task user_id) as [reply| |] eqn:Hpost; cbn;
    try discriminate.
  - destruct reply; discriminate.
  - contradiction (Hlive _ _ _ Hpost).
Qed.

(** C7, as amended.  [call_agent] fails with "Agent ... not found" when the
    name is not a key of the registry, and with "No base URL stored" when
    the stored card has no base URL or an empty one; when the remote call
    succeeds with a body that is a JSON object, it returns the body's
    [result] field, or the text of the whole body when the field is
    absent. *)
Theorem call_agent_outcomes (env : environment) (agents : registry)
    (agent_name task user_id : string) (tr : list event) :
  (Dict.get agent_name agents = None ->
   call_agent env agents agent_name task user_id tr
   = (Raises (ValueError ("Agent '" ++ agent_name ++ "' not found")), tr))
  /\ (forall card,
        Dict.get agent_name agents = Some card ->
        truthy (get_or "" (_base_url card)) = false ->
        call_agent env agents agent_name task user_id tr
        = (Raises (ValueError
                     ("No base URL stored for agent '" ++ agent_name ++ "'")),
           tr))
  /\ (forall card fields,
        Dict.get agent_name agents = Some card ->
        truthy (get_or "" (_base_url card)) = true ->
        http_post env (get_or "" (_base_url card) ++ "/task") task user_id
        = Returns (JObj fields) ->
        call_agent env agents agent_name task user_id tr
        = (Returns (match Dict.get "result" fields with
                    | Some value => value
                    | None => JStr (str_json env (JObj fields))
                    end), tr)).
Proof.
  unfold call_agent. repeat split.
  - intros ->. reflexivity.
  - intros card -> ->. reflexivity.
  - intros card fields -> -> Hpost. cbn [negb].
    unfold try_except, bind, await, ret. rewrite Hpost, app_nil_r.
    destruct (Dict.get "result" fields); reflexivity.
Qed.

Lemma call_agent_outcomes_witness :
  call_agent (sample_env travel_doc_nested done_reply) (discovered done_reply)
    "travel-agent" "Convert 100 USD to EUR" "ana" []
  = (Returns (JStr "done"), []).
Proof.
  destruct (call_agent_outcomes (sample_env travel_doc_nested done_reply)
              (discovered done_reply) "travel-agent"
              "Convert 100 USD to EUR" "ana" []) as [_ [_ Hok]].
  exact (Hok _ [("result", JStr "done")] eq_refl eq_refl eq_refl).
Defined.

(** C7, as worded, fails: a successful response whose body is a JSON array
    makes [call_agent] raise. *)
Lemma call_agent_fails_on_array_body :
  ~ never_fails_on_shape (sample_env travel_doc_nested array_reply)
      (discovered array_reply) "travel-agent" "Convert 100 USD to EUR" "ana".
Proof.
  intros H.
  destruct (H (stored_card travel_endpoint travel_doc_nested)
              (JArr [JStr "done"]) eq_refl eq_refl eq_refl) as [r Hr].
  vm_compute in Hr. discriminate Hr.
Qed.

(** ** Queue processor *)

Lemma process_message_outcome (client : ServiceBusClient)
    (env : environment) (agents : registry) (msg : received_message)
    (tr : list event) :
  (forall reason d, dead_letter_message client msg reason d = Returns tt) ->
  never_cancelled client env ->
  exists events,
    process_message client env agents msg tr = (Returns tt, tr ++ events)
    /\ message_outcome agents msg events.
Proof.
  intros Hdead [Hpost [Hsend Hcomplete]].
  unfold process_message, message_outcome, routed_agent, message_task.
  unfold try_except, bind, ret, raise, await.
  destruct (application_properties msg) as [properties|].
  2: { rewrite Hdead. eexists. split; [reflexivity|].
       right. right. left. eexists. reflexivity. }
  destruct (selected _) as [agent|].
  - pose proof (call_agent_keeps_trace env agents agent (body msg)
                  (get_or "anonymous" (Dict.get "user_id" properties)) tr)
      as Htrace.
    pose proof (call_agent_not_cancelled env agents agent (body msg)
                  (get_or "anonymous" (Dict.get "user_id" properties)) tr
                  Hpost) as Hlive.
    destruct (call_agent env agents agent (body msg) _ tr) as [[r|e|] tr'];
      cbn in Htrace, Hlive; subst tr'.
    + destruct (send_messages client "agent-responses" _) as [u|e|] eqn:Hs.
      * destruct (complete_message client msg) as [u'|e|] eqn:Hc.
        -- destruct u'. rewrite <- app_assoc. eexists. split; [reflexivity|].
           right. left. eexists. eexists. split; reflexivity.
        -- rewrite Hdead, <- app_assoc. eexists. split; [reflexivity|].
           right. right. right. eexists. eexists. reflexivity.
        -- contradiction (Hcomplete _ Hc).
      * rewrite Hdead. eexists. split; [reflexivity|].
        right. right. left. eexists. reflexivity.
      * contradiction (Hsend _ _ Hs).
    + rewrite Hdead. eexists. split; [reflexivity|].
      right. right. left. eexists. reflexivity.
    + contradiction Hlive. reflexivity.
  - destruct (complete_message client msg) as [u'|e|] eqn:Hc.
    + destruct u'. eexists. split; [reflexivity|]. left. split; reflexivity.
    + rewrite Hdead. eexists. split; [reflexivity|].
      right. right. left. eexists. reflexivity.
    + contradiction (Hcomplete _ Hc).
Qed.

Lemma message_outcome_settled_once (agents : registry)
    (msg : received_message) (events : list event) :
  message_outcome agents msg events -> settled_once msg events.
Proof.
  unfold message_outcome, settled_once.
  intros [[_ ->] | [[a [r [_ ->]]] | [[d ->] | [r [d ->]]]]]; cbn;
    first [left; reflexivity | right; eexists; reflexivity].
Qed.

Lemma process_batch_outcomes (client : ServiceBusClient)
    (env : environment) (agents : registry)
    (received_msgs : list received_message) (tr : list event) :
  (forall msg reason d,
     In msg received_msgs ->
     dead_letter_message client msg reason d = Returns tt) ->
  never_cancelled client env ->
  exists per_message,
    process_batch client env agents received_msgs tr
    = (Returns tt, tr ++ List.concat per_message)
    /\ Forall2 (message_outcome agents) received_msgs per_message.
Proof.
  intros Hdead Hlive. revert tr.
  induction received_msgs as [|msg rest IH]; intros tr.
  - exists []. cbn. rewrite app_nil_r. split; [reflexivity | constructor].
  - destruct (process_message_outcome client env agents msg tr)
      as [events [Hrun Hout]]; [| exact Hlive |].
    { intros reason d. apply Hdead. left. reflexivity. }
    destruct (IH (fun m reason d Hin => Hdead m reason d (or_intror Hin))
                 (tr ++ events)) as [per [Hrest Hall]].
    exists (events :: per).
    cbn [process_batch List.concat]. unfold bind at 1.
    rewrite Hrun, Hrest, <- app_assoc.
    split; [reflexivity | constructor; assumption].
Qed.

(** C1, as amended.  While no [await] is cancelled and the dead-letter
    call itself succeeds, every message of a batch is settled exactly
    once, completed or dead-lettered, never both and never neither, and
    the batch runs to its end.  A completed message has a response
    published before it when the router yielded an agent, and nothing
    published when it yielded none; a message is dead-lettered with
    nothing published, or after its response was published when the
    completion fails. *)
Theorem every_message_settled_once (client : ServiceBusClient)
    (env : environment) (agents : registry)
    (received_msgs : list received_message) (tr : list event) :
  (forall msg reason d,
     In msg received_msgs ->
     dead_letter_message client msg reason d = Returns tt) ->
  never_cancelled client env ->
  exists per_message,
    process_batch client env agents received_msgs tr
    = (Returns tt, tr ++ List.concat per_message)
    /\ Forall2
         (fun msg events =>
            message_outcome agents msg events /\ settled_once msg events)
         received_msgs per_message.
Proof.
  intros Hdead Hlive.
  destruct (process_batch_outcomes client env agents received_msgs tr
              Hdead Hlive) as [per [Hrun Hall]].
  exists per. split; [exact Hrun|].
  clear Hrun Hdead.
  induction Hall as [|msg events msgs per Hout _ IH]; constructor.
  - split; [exact Hout|].
    apply (message_outcome_settled_once agents). exact Hout.
  - exact IH.
Qed.

Lemma every_message_settled_once_witness :
  exists per_message,
    process_batch reliable_client (sample_env travel_doc_nested done_reply)
      (discovered done_reply)
      [delivered "m1" "Convert 100 USD to EUR" "ana"] []
    = (Returns tt, [] ++ List.concat per_message)
    /\ Forall2
         (fun msg events =>
            message_outcome (discovered done_reply) msg events
            /\ settled_once msg events)
         [delivered "m1" "Convert 100 USD to EUR" "ana"] per_message.
Proof.
  apply (every_message_settled_once reliable_client
           (sample_env travel_doc_nested done_reply) (discovered done_reply)
           [delivered "m1" "Convert 100 USD to EUR" "ana"] []).
  - intros msg reason d _. reflexivity.
  - repeat split; intros; discriminate.
Defined.

(** C1, as worded, fails: with an empty registry the router yields no
    agent, and the message is completed with no response published and
    is not dead-lettered. *)
Lemma task_completed_without_response :
  let msg := delivered "m1" "I want 2 cheeseburgers" "ana" in
  ~ one_terminal_outcome
      (snd (process_message reliable_client
              (sample_env travel_doc_nested done_reply) [] msg []))
      msg.
Proof.
  cbv zeta. vm_compute process_message.
  intros [[[_ [r [H | []]]] _] | [[reason [d [H | []]]] _]]; discriminate H.
Qed.

(** ** Response reader *)

Lemma geb_below (a b : Z) : (a < b)%Z -> (a >=? b)%Z = false.
Proof. intros H. rewrite Z.geb_leb. apply Z.leb_gt. exact H. Qed.

Lemma receive_loop_acknowledged (client : ServiceBusClient)
    (user_id : string) (max_messages : Z)
    (inspected : list received_message)
    (rest : list (outcome received_message)) :
  (forall m, In m inspected -> complete_message client m = Returns tt) ->
  forall (collected : list response_record) (tr : list event),
    (Z.of_nat (List.length collected
               + List.length (filter (matches user_id) inspected))
     < max_messages)%Z ->
    receive_loop client user_id max_messages
      (map Returns inspected ++ rest) collected tr
    = receive_loop client user_id max_messages rest
        (collected ++ matching_records user_id inspected)
        (tr ++ map Completed inspected).
Proof.
  intros Hack. unfold matching_records.
  induction inspected as [|m inspected IH]; intros collected tr Hroom.
  - cbn. rewrite !app_nil_r. reflexivity.
  - cbn [map app receive_loop filter].
    unfold bind at 1, await at 1. rewrite app_nil_r.
    unfold await at 1. rewrite (Hack m (or_introl eq_refl)).
    cbn [filter List.length] in Hroom.
    assert (Hrest : forall m', In m' inspected ->
                               complete_message client m' = Returns tt)
      by (intros m' Hin; apply Hack; right; exact Hin).
    destruct (matches user_id m).
    + cbn [List.length] in Hroom.
      rewrite geb_below by (rewrite length_app; cbn [List.length]; lia).
      rewrite (IH Hrest); [| rewrite length_app; cbn [List.length]; lia].
      cbn [map]. rewrite <- !app_assoc. reflexivity.
    + rewrite geb_below by lia.
      rewrite (IH Hrest); [| exact Hroom].
      cbn [map]. rewrite <- !app_assoc. reflexivity.
Qed.

(** A record is collected only from a message that matches the filter. *)
Lemma receive_loop_filters (client : ServiceBusClient) (user_id : string)
    (max_messages : Z) (P : response_record -> Prop) :
  (forall m, matches user_id m = true -> P (record_of m)) ->
  forall (deliveries : list (outcome received_message))
         (collected : list response_record) (tr : list event)
         (found : list response_record),
    Forall P collected ->
    fst (receive_loop client user_id max_messages deliveries collected tr)
    = Returns found ->
    Forall P found.
Proof.
  intros Hmatch.
  induction deliveries as [|delivery rest IH];
    intros collected tr found Hall.
  - cbn. intros H. inversion H. subst. exact Hall.
  - cbn [receive_loop]. unfold bind at 1, await at 1.
    destruct delivery as [m|e|]; [| discriminate | discriminate].
    set (collected' := if matches user_id m
                       then collected ++ [record_of m] else collected).
    assert (Hall' : Forall P collected').
    { unfold collected'. destruct (matches user_id m) eqn:Hm; [| exact Hall].
      apply Forall_app. split; [exact Hall|].
      constructor; [apply Hmatch; exact Hm | constructor]. }
    unfold await at 1.
    destruct (complete_message client m) as [u|e|]; [| | discriminate].
    + destruct (Z.of_nat (List.length collected') >=? max_messages)%Z.
      * cbn. intros H. inversion H. subst. exact Hall'.
      * apply IH. exact Hall'.
    + unfold bind, await.
      destruct (abandon_message client m) as [u|e'|];
        [| discriminate | discriminate].
      apply IH. exact Hall'.
Qed.

(** With a bound of at least one and no failing acknowledgement, at most
    [max_messages] records are returned. *)
Lemma receive_loop_bounded (client : ServiceBusClient) (user_id : string)
    (max_messages : Z) :
  (forall m e, complete_message client m <> Raises e) ->
  forall (deliveries : list (outcome received_message))
         (collected : list response_record) (tr : list event)
         (found : list response_record),
    (Z.of_nat (List.length collected) < max_messages)%Z ->
    fst (receive_loop client user_id max_messages deliveries collected tr)
    = Returns found ->
    (Z.of_nat (List.length found) <= max_messages)%Z.
Proof.
  intros Hack.
  induction deliveries as [|delivery rest IH];
    intros collected tr found Hroom.
  - cbn. intros H. inversion H. subst. lia.
  - cbn [receive_loop]. unfold bind at 1, await at 1.
    destruct delivery as [m|e|]; [| discriminate | discriminate].
    set (collected' := if matches user_id m
                       then collected ++ [record_of m] else collected).
    assert (Hlen : (Z.of_nat (List.length collected') <= max_messages)%Z).
    { unfold collected'. destruct (matches user_id m); [| lia].
      rewrite length_app. cbn [List.length]. lia. }
    unfold await at 1.
    destruct (complete_message client m) as [u|e|] eqn:Hc;
      [| contradiction (Hack m e Hc) | discriminate].
    destruct (Z.of_nat (List.length collected') >=? max_messages)%Z eqn:Hfull.
    + cbn. intros H. inversion H. subst. exact Hlen.
    + apply IH. rewrite Z.geb_leb in Hfull. apply Z.leb_gt in Hfull.
      exact Hfull.
Qed.

(** X21.  With a user filter other than "all", every record
    [get_responses] returns has that user's id. *)
Lemma get_responses_only_matching (client : ServiceBusClient)
    (env : environment) (user_id : string) (max_messages : Z)
    (deliveries : list (outcome received_message)) (tr : list event)
    (page : responses_page) :
  user_id <> "all" ->
  fst (get_responses (Some client) env user_id max_messages deliveries tr)
  = Returns page ->
  Forall (fun r => r_user_id r = user_id) (responses page).
Proof.
  intros Hfilter. unfold get_responses, try_except, bind, ret, raise.
  destruct (receive_loop client user_id max_messages deliveries [] tr)
    as [[found|e|] tr'] eqn:Hloop; [| discriminate | discriminate].
  cbn. intros H. inversion H. subst. cbn.
  apply (receive_loop_filters client user_id max_messages
           (fun r => r_user_id r = user_id)) with (deliveries := deliveries)
           (collected := []) (tr := tr).
  - intros m Hm. unfold matches in Hm.
    apply String.eqb_neq in Hfilter. rewrite Hfilter in Hm. cbn in Hm.
    apply String.eqb_eq in Hm. exact Hm.
  - constructor.
  - rewrite Hloop. reflexivity.
Qed.

(** C8, as amended.  After the messages [inspected], all acknowledged and
    with fewer matches than [max_messages]: a failure of the read itself
    makes [get_responses] fail with status 500, and the caller gets none
    of the records collected; a failure to complete one message does not
    lose them: the message is abandoned and the records collected so far,
    with that message's own if it matched, are returned. *)
Theorem read_failure_fails_the_fetch (client : ServiceBusClient)
    (env : environment) (user_id : string) (max_messages : Z)
    (inspected : list received_message) :
  (forall m, In m inspected -> complete_message client m = Returns tt) ->
  (Z.of_nat (List.length (filter (matches user_id) inspected))
   < max_messages)%Z ->
  (forall e rest tr,
     get_responses (Some client) env user_id max_messages
       (map Returns inspected ++ Raises e :: rest) tr
     = (Raises (HTTPException 500
                  ("Failed to fetch responses: " ++ str_exn env e)),
        tr ++ map Completed inspected))
  /\ (forall m e tr,
        complete_message client m = Raises e ->
        abandon_message client m = Returns tt ->
        get_responses (Some client) env user_id max_messages
          (map Returns inspected ++ [Returns m]) tr
        = (Returns
             {| total :=
                  List.length (matching_records user_id (inspected ++ [m]));
                page_user_id := user_id;
                responses := matching_records user_id (inspected ++ [m]) |},
           tr ++ map Completed inspected ++ [Abandoned m])).
Proof.
  intros Hack Hroom. split.
  - intros e rest tr.
    unfold get_responses, try_except, bind at 1.
    rewrite (receive_loop_acknowledged client user_id max_messages
               inspected (Raises e :: rest) Hack [] tr Hroom).
    reflexivity.
  - intros m e tr Hfail Habandon.
    unfold get_responses, try_except, bind at 1.
    rewrite (receive_loop_acknowledged client user_id max_messages
               inspected [Returns m] Hack [] tr Hroom).
    cbn [receive_loop app]. unfold bind, await, ret.
    rewrite Hfail, Habandon, !app_nil_r.
    unfold matching_records. rewrite filter_app, map_app. cbn [filter].
    rewrite <- app_assoc.
    destruct (matches user_id m); cbn [map]; rewrite ?app_nil_r; reflexivity.
Qed.

Lemma read_failure_fails_the_fetch_witness :
  let env := sample_env travel_doc_nested done_reply in
  get_responses (Some flaky_client) env "all" 10
    [Returns (published "r1" "85 EUR" "ana");
     Raises (TransportError "link detached")] []
  = (Raises (HTTPException 500 "Failed to fetch responses: link detached"),
     [Completed (published "r1" "85 EUR" "ana")])
  /\ fst (get_responses (Some flaky_client) env "all" 10
            [Returns (published "r1" "85 EUR" "ana");
             Returns (published "r2" "92 USD" "bob")] [])
     = Returns
         {| total := 2; page_user_id := "all";
            responses :=
              matching_records "all"
                [published "r1" "85 EUR" "ana";
                 published "r2" "92 USD" "bob"] |}.
Proof.
  cbv zeta.
  destruct (read_failure_fails_the_fetch flaky_client
              (sample_env travel_doc_nested done_reply) "all" 10
              [published "r1" "85 EUR" "ana"]) as [Hread Hone].
  - intros m [<- | []]. reflexivity.
  - reflexivity.
  - split.
    + exact (Hread (TransportError "link detached") [] []).
    + exact (f_equal fst
               (Hone (published "r2" "92 USD" "bob")
                  (TransportError "lock lost") [] eq_refl eq_refl)).
Defined.

(** C8, as worded, fails: one matching record has been collected when the
    read fails, and the caller gets an error instead of the record. *)
Lemma read_failure_discards_records :
  ~ keeps_records_on_read_failure reliable_client
      (sample_env travel_doc_nested done_reply) "all" 10
      [published "r1" "85 EUR" "ana"] (TransportError "link detached").
Proof.
  intros [page [H _]]. vm_compute in H. discriminate H.
Qed.

(** C4: the code does not do what the claim says.  A response for "bob",
    inspected while "alice" fetches hers, does not match the filter and is
    completed, that is removed from the queue, not abandoned; and with
    [max_messages = 0] one record is returned. *)
Theorem unmatched_response_is_completed :
  let env := sample_env travel_doc_nested done_reply in
  let for_bob := published "r1" "85 EUR" "bob" in
  get_responses (Some reliable_client) env "alice" 10 [Returns for_bob] []
  = (Returns {| total := 0; page_user_id := "alice"; responses := [] |},
     [Completed for_bob])
  /\ get_responses (Some reliable_client) env "all" 0 [Returns for_bob] []
     = (Returns {| total := 1; page_user_id := "all";
                   responses := [record_of for_bob] |},
        [Completed for_bob]).
Proof. split; reflexivity. Qed.

(** * Further properties *)

(** ** More on routing *)

Lemma in_mem {V : Type} (k : string) (v : V) (d : Dict.dict V) :
  In (k, v) d -> Dict.mem k d = true.
Proof.
  unfold Dict.mem.
  induction d as [|[k' v'] d IH]; [intros []|].
  cbn. intros [H | H].
  - inversion H; subst. rewrite String.eqb_refl. reflexivity.
  - destruct (String.eqb k k'); [reflexivity | exact (IH H)].
Qed.

Lemma find_all_false {A : Type} (f : A -> bool) (l : list A) :
  (forall x, In x l -> f x = false) -> find f l = None.
Proof.
  induction l as [|a l IH]; [reflexivity|].
  intros H. cbn. rewrite (H a (or_introl eq_refl)).
  apply IH. intros x Hx. apply H. right. exact Hx.
Qed.

(** The router returns a key of the registry, or nothing on an empty
    registry. *)
Lemma selected_is_key_or_none (agents : registry) (task : string)
    (preferred : option string) :
  match select_best_agent agents task preferred with
  | Some agent_name => Dict.mem agent_name agents = true
  | None => agents = []
  end.
Proof.
  unfold select_best_agent.
  destruct (preferred_applies agents preferred) eqn:Hpref.
  - unfold select_best_agent_logged. rewrite Hpref. cbn [fst].
    destruct preferred as [p|]; [| discriminate Hpref].
    cbn in Hpref. apply andb_true_iff in Hpref as [_ Hmem]. exact Hmem.
  - rewrite (router_follows_rules agents task preferred Hpref).
    unfold route.
    destruct (first_match as_routed (lower task) agents) as [[n card]|] eqn:Hf.
    + cbn [fst]. apply find_some in Hf as [Hin _].
      exact (in_mem n card agents Hin).
    + destruct agents as [|[n card] rest]; cbn [fst]; [reflexivity|].
      apply (in_mem n card). left. reflexivity.
Qed.

(** X1.  Whatever the task and the preferred agent, the agent the router
    returns is a key of the registry; it returns none only on an empty
    registry. *)
Theorem selected_agent_is_registered (agents : registry) (task : string)
    (preferred : option string) :
  match select_best_agent agents task preferred with
  | Some agent_name => Dict.mem agent_name agents = true
  | None => agents = []
  end.
Proof. exact (selected_is_key_or_none agents task preferred). Qed.

(** X2.  A preferred agent that is not in the registry is ignored: the task
    is routed as if no preference had been given, and no error is raised. *)
Theorem unknown_preferred_agent_is_ignored (agents : registry)
    (task p : string) :
  Dict.mem p agents = false ->
  select_best_agent_logged agents task (Some p)
  = select_best_agent_logged agents task None.
Proof.
  intros Hmem. unfold select_best_agent_logged, preferred_applies.
  rewrite Hmem, andb_false_r. reflexivity.
Qed.

Lemma unknown_preferred_agent_is_ignored_witness :
  select_best_agent_logged burger_and_travel "pepperoni pizza"
    (Some "pizza-agent")
  = select_best_agent_logged burger_and_travel "pepperoni pizza" None.
Proof.
  apply (unknown_preferred_agent_is_ignored burger_and_travel
           "pepperoni pizza" "pizza-agent").
  reflexivity.
Defined.

(** X3.  A task that contains no trigger keyword of any category goes to
    the first agent of the registry, whatever the agents' names,
    descriptions and skills are. *)
Theorem task_without_keyword_goes_to_first_agent (agents : registry)
    (task : string) (preferred : option string) :
  preferred_applies agents preferred = false ->
  no_trigger_keyword task ->
  select_best_agent_logged agents task preferred
  = match agents with
    | (agent_name, _) :: _ => (Some agent_name, DefaultAgent)
    | [] => (None, NoAgents)
    end.
Proof.
  intros Hpref Hnone.
  rewrite (router_follows_rules agents task preferred Hpref).
  unfold route, first_match.
  rewrite find_all_false; [reflexivity|].
  intros [n card] _. cbn [fst snd].
  destruct (agent_matches as_routed (lower task) n card) eqn:Hm;
    [| reflexivity].
  apply agent_matches_iff in Hm
    as [[c [_ Hm]] | [sk [c [_ [_ Hm]]]]].
  - unfold name_match in Hm. rewrite (Hnone c) in Hm. discriminate Hm.
  - unfold skill_match in Hm. rewrite (Hnone c) in Hm. discriminate Hm.
Qed.

Lemma task_without_keyword_goes_to_first_agent_witness :
  select_best_agent_logged helper_and_guide "what time is it" None
  = (Some "helper-agent", DefaultAgent).
Proof.
  apply (task_without_keyword_goes_to_first_agent helper_and_guide
           "what time is it" None eq_refl).
  intros c. destruct c; reflexivity.
Defined.

(** X4.  With a single agent in the registry every task goes to it,
    whatever the task and the preferred agent. *)
Theorem single_agent_gets_every_task (agent_name : string)
    (card : agent_card) (task : string) (preferred : option string) :
  select_best_agent [(agent_name, card)] task preferred = Some agent_name.
Proof.
  unfold select_best_agent.
  destruct (preferred_applies [(agent_name, card)] preferred) eqn:Hpref.
  - unfold select_best_agent_logged. rewrite Hpref. cbn [fst].
    destruct preferred as [p|]; [| discriminate Hpref].
    cbn in Hpref. apply andb_true_iff in Hpref as [_ Hmem].
    unfold Dict.mem in Hmem. cbn in Hmem.
    destruct (String.eqb p agent_name) eqn:Hp; [| discriminate Hmem].
    apply String.eqb_eq in Hp. subst. reflexivity.
  - rewrite (router_follows_rules _ task preferred Hpref).
    unfold route, first_match. cbn [find fst snd].
    destruct (agent_matches as_routed (lower task) agent_name card);
      reflexivity.
Qed.

(** ** More on discovery *)

Lemma keys_set {V : Type} (k : string) (v : V) (d : Dict.dict V) :
  Dict.keys (Dict.set k v d)
  = if Dict.mem k d then Dict.keys d else Dict.keys d ++ [k].
Proof.
  unfold Dict.mem, Dict.keys.
  induction d as [|[k' v'] d IH]; [reflexivity|].
  cbn. destruct (String.eqb k k') eqn:Hk.
  - apply String.eqb_eq in Hk. subst. reflexivity.
  - cbn. rewrite IH. destruct (Dict.get k d); reflexivity.
Qed.

Lemma keys_after_writes {V : Type} (writes : list (string * V))
    (d : Dict.dict V) :
  exists new,
    Dict.keys (fold_left (fun d kv => Dict.set (fst kv) (snd kv) d) writes d)
    = Dict.keys d ++ new.
Proof.
  revert d. induction writes as [|[k v] writes IH]; intros d.
  - exists []. cbn. rewrite app_nil_r. reflexivity.
  - cbn [fold_left fst snd].
    destruct (IH (Dict.set k v d)) as [new Hnew].
    rewrite Hnew, keys_set.
    destruct (Dict.mem k d).
    + exists new. reflexivity.
    + exists (k :: new). rewrite <- app_assoc. reflexivity.
Qed.

(** X5.  A pass of discovery removes no agent and moves none: the keys of
    the registry before the pass are the first keys after it, in the same
    order, and [trigger_discovery] reports them followed by the new ones. *)
Theorem refresh_keeps_known_agents (env : environment)
    (endpoints : list string) (before : registry) :
  exists new,
    Dict.keys (snd (discover_all_agents env endpoints before))
    = Dict.keys before ++ new
    /\ forall report after,
         trigger_discovery env endpoints before = (Returns report, after) ->
         report_agents report = Dict.keys before ++ new
         /\ report_agents_found report
            = List.length before + List.length new.
Proof.
  destruct (keys_after_writes (stored_in_pass env endpoints) before)
    as [new Hnew].
  exists new.
  assert (Hkeys : Dict.keys (snd (discover_all_agents env endpoints before))
                  = Dict.keys before ++ new)
    by (rewrite discover_all_as_writes; exact Hnew).
  split; [exact Hkeys|].
  intros report after. unfold trigger_discovery.
  destruct (discover_all_agents env endpoints before) as [[u|e|] found];
    [| discriminate | discriminate].
  cbn [snd] in Hkeys. intros H. inversion H; subst report after.
  cbn [report_agents report_agents_found].
  split; [exact Hkeys|].
  apply (f_equal (@List.length string)) in Hkeys.
  unfold Dict.keys in Hkeys. rewrite length_app, !length_map in Hkeys.
  exact Hkeys.
Qed.

Lemma stored_in_pass_ok (env : environment) (endpoints : list string)
    (n : string) (card : agent_card) :
  In (n, card) (stored_in_pass env endpoints) -> entry_ok n card.
Proof.
  induction endpoints as [|endpoint rest IH]; [intros []|].
  cbn [stored_in_pass].
  destruct (truthy (strip endpoint)) eqn:Hurl; cbn [negb]; [| exact IH].
  destruct (http_get env (strip endpoint)) as [doc| |];
    [| exact IH | intros []].
  destruct (card_truthy doc); [| exact IH].
  intros [H | H]; [| exact (IH H)].
  inversion H; subst.
  exists (strip endpoint). repeat split. exact Hurl.
Qed.

(** X6.  Discovery keeps the registry well formed: when every entry is
    keyed by the name of its card (or "unknown") and carries a non-blank
    discovery URL and the base URL derived from it, the same holds after a
    pass. *)
Theorem refresh_keeps_entries_well_formed (env : environment)
    (endpoints : list string) (before : registry) :
  (forall n card, Dict.get n before = Some card -> entry_ok n card) ->
  forall n card,
    Dict.get n (snd (discover_all_agents env endpoints before)) = Some card ->
    entry_ok n card.
Proof.
  intros Hbefore n card. rewrite discover_all_as_writes.
  intros Hget. apply get_after_writes in Hget as [Hget | Hin].
  - exact (Hbefore n card Hget).
  - exact (stored_in_pass_ok env endpoints n card Hin).
Qed.

Lemma refresh_keeps_entries_well_formed_witness :
  entry_ok "travel-agent" (stored_card travel_endpoint travel_doc_nested).
Proof.
  apply (refresh_keeps_entries_well_formed
           (sample_env travel_doc_nested done_reply)
           [helper_endpoint; travel_endpoint] []).
  - intros n card H. discriminate H.
  - reflexivity.
Defined.

Section WriteFacts.
Context {V : Type}.

Let write (d : Dict.dict V) (kv : string * V) : Dict.dict V :=
  Dict.set (fst kv) (snd kv) d.

Lemma get_none_not_key (k : string) (d : Dict.dict V) :
  Dict.get k d = None <-> ~ In k (Dict.keys d).
Proof.
  unfold Dict.keys.
  induction d as [|[k' v'] d IH]; cbn.
  - split; [intros _ [] | reflexivity].
  - destruct (String.eqb k k') eqn:Hk.
    + apply String.eqb_eq in Hk. subst.
      split; [discriminate | intros H; contradiction H; left; reflexivity].
    + apply String.eqb_neq in Hk. rewrite IH.
      split.
      * intros H [Heq | Hin]; [apply Hk; symmetry; exact Heq | exact (H Hin)].
      * intros H Hin. apply H. right. exact Hin.
Qed.

(** Two dicts with the same keys, in order, and the same lookups are the
    same dict. *)
Lemma dict_ext (d1 d2 : Dict.dict V) :
  NoDup (Dict.keys d1) ->
  Dict.keys d1 = Dict.keys d2 ->
  (forall k, Dict.get k d1 = Dict.get k d2) ->
  d1 = d2.
Proof.
  revert d2.
  induction d1 as [|[k v1] d1 IH]; intros [|[k2 v2] d2] Hnd Hkeys Hget;
    try discriminate Hkeys; [reflexivity|].
  cbn in Hkeys. inversion Hkeys as [[Hk Hrest]]. subst k2.
  pose proof (Hget k) as Hv. cbn in Hv. rewrite String.eqb_refl in Hv.
  inversion Hv; subst v2.
  cbn in Hnd. inversion Hnd as [|? ? Hnotin Hnd']; subst.
  f_equal. apply IH; [exact Hnd' | exact Hrest |].
  intros k'. destruct (String.eqb k' k) eqn:Hk'.
  - apply String.eqb_eq in Hk'. subst k'.
    pose proof (proj2 (get_none_not_key k d1) Hnotin) as H1.
    assert (Hnotin2 : ~ In k (Dict.keys d2))
      by (unfold Dict.keys; rewrite <- Hrest; exact Hnotin).
    pose proof (proj2 (get_none_not_key k d2) Hnotin2) as H2.
    rewrite H1, H2. reflexivity.
  - pose proof (Hget k') as H. cbn in H. rewrite Hk' in H. exact H.
Qed.

Lemma nodup_set (k : string) (v : V) (d : Dict.dict V) :
  NoDup (Dict.keys d) -> NoDup (Dict.keys (Dict.set k v d)).
Proof.
  intros Hnd. rewrite keys_set.
  destruct (Dict.mem k d) eqn:Hmem; [exact Hnd|].
  apply NoDup_app; [exact Hnd | constructor; [intros [] | constructor] |].
  intros k' Hin [<- | []].
  unfold Dict.mem in Hmem.
  destruct (Dict.get k d) eqn:Hget; [discriminate Hmem|].
  exact (proj1 (get_none_not_key k d) Hget Hin).
Qed.

Lemma nodup_after_writes (writes : list (string * V)) (d : Dict.dict V) :
  NoDup (Dict.keys d) -> NoDup (Dict.keys (fold_left write writes d)).
Proof.
  revert d. induction writes as [|[k v] writes IH]; intros d Hnd;
    [exact Hnd|].
  cbn [fold_left]. apply IH. apply nodup_set. exact Hnd.
Qed.

(** A lookup after a list of writes either is fixed by the writes or is the
    lookup before them. *)
Lemma get_after_writes_cases (writes : list (string * V)) (k : string) :
  (exists v, forall d, Dict.get k (fold_left write writes d) = Some v)
  \/ (forall d, Dict.get k (fold_left write writes d) = Dict.get k d).
Proof.
  induction writes as [|[k' v'] writes IH]; [right; reflexivity|].
  cbn [fold_left]. destruct IH as [[v Hv] | Hsame].
  - left. exists v. intros d. apply Hv.
  - destruct (String.eqb k k') eqn:Hk.
    + apply String.eqb_eq in Hk. subst k'. left. exists v'. intros d.
      rewrite Hsame. unfold write. cbn [fst snd]. apply get_set_same.
    + apply String.eqb_neq in Hk. right. intros d.
      rewrite Hsame. unfold write. cbn [fst snd].
      apply get_set_other. exact Hk.
Qed.

Lemma keys_after_known_writes (writes : list (string * V))
    (d : Dict.dict V) :
  (forall k, In k (map fst writes) -> Dict.mem k d = true) ->
  Dict.keys (fold_left write writes d) = Dict.keys d.
Proof.
  revert d. induction writes as [|[k v] writes IH]; intros d Hknown;
    [reflexivity|].
  cbn [fold_left]. rewrite IH.
  - unfold write. cbn [fst snd]. rewrite keys_set.
    rewrite (Hknown k (or_introl eq_refl)). reflexivity.
  - intros k' Hin. unfold write. cbn [fst snd].
    unfold Dict.mem.
    destruct (String.eqb k' k) eqn:Hk.
    + apply String.eqb_eq in Hk. subst. rewrite get_set_same. reflexivity.
    + apply String.eqb_neq in Hk. rewrite (get_set_other k' k v d Hk).
      apply (Hknown k'). right. exact Hin.
Qed.

Lemma writes_idempotent (writes : list (string * V)) (d : Dict.dict V) :
  NoDup (Dict.keys d) ->
  fold_left write writes (fold_left write writes d)
  = fold_left write writes d.
Proof.
  intros Hnd. apply dict_ext.
  - apply nodup_after_writes, nodup_after_writes. exact Hnd.
  - apply keys_after_known_writes. intros k Hin.
    apply mem_after_writes. right. exact Hin.
  - intros k. destruct (get_after_writes_cases writes k) as [[v Hv] | Hsame].
    + rewrite !Hv. reflexivity.
    + apply Hsame.
Qed.

End WriteFacts.

(** X7.  Discovery is idempotent: a second pass over the same endpoints,
    answering the same, leaves the registry of the first pass unchanged;
    and a pass keeps the keys of the registry distinct. *)
Theorem refresh_is_idempotent (env : environment) (endpoints : list string)
    (before : registry) :
  NoDup (Dict.keys before) ->
  let once := snd (discover_all_agents env endpoints before) in
  snd (discover_all_agents env endpoints once) = once
  /\ NoDup (Dict.keys once).
Proof.
  intros Hnd once. unfold once.
  rewrite !discover_all_as_writes. split.
  - apply writes_idempotent. exact Hnd.
  - apply nodup_after_writes. exact Hnd.
Qed.

Lemma refresh_is_idempotent_witness :
  let env := sample_env travel_doc_nested done_reply in
  let endpoints := [burger_endpoint; helper_endpoint; travel_endpoint] in
  snd (discover_all_agents env endpoints
         (snd (discover_all_agents env endpoints earlier_registry)))
  = snd (discover_all_agents env endpoints earlier_registry).
Proof.
  apply (refresh_is_idempotent (sample_env travel_doc_nested done_reply)
           [burger_endpoint; helper_endpoint; travel_endpoint]
           earlier_registry).
  repeat constructor. intros [].
Defined.

(** ** Endpoints *)

Lemma discover_all_app (env : environment) (first second : list string)
    (before : registry) :
  discover_all_agents env (first ++ second) before
  = match discover_all_agents env first before with
    | (Returns _, between) => discover_all_agents env second between
    | stopped => stopped
    end.
Proof.
  revert before.
  induction first as [|endpoint rest IH]; intros before; [reflexivity|].
  cbn [app discover_all_agents].
  destruct (negb (truthy (strip endpoint))); [apply IH|].
  destruct (discover_agent env (strip endpoint)) as [[card|]|e|];
    try reflexivity; [| apply IH].
  destruct (card_truthy card); apply IH.
Qed.

(** X8.  An endpoint that is empty or only white space is skipped: a pass
    over a list with it is the pass over the list without it. *)
Theorem blank_endpoints_are_skipped (env : environment)
    (first second : list string) (blank : string) (before : registry) :
  strip blank = "" ->
  discover_all_agents env (first ++ blank :: second) before
  = discover_all_agents env (first ++ second) before.
Proof.
  intros Hblank. rewrite !discover_all_app.
  destruct (discover_all_agents env first before) as [[u|e|] between];
    try reflexivity.
  cbn [discover_all_agents]. rewrite Hblank. reflexivity.
Qed.

Lemma blank_endpoints_are_skipped_witness :
  let env := sample_env travel_doc_nested done_reply in
  discover_all_agents env [helper_endpoint; "  "; travel_endpoint] []
  = discover_all_agents env [helper_endpoint; travel_endpoint] [].
Proof.
  cbv zeta.
  apply (blank_endpoints_are_skipped
           (sample_env travel_doc_nested done_reply)
           [helper_endpoint] [travel_endpoint] "  " []).
  reflexivity.
Defined.

(** ** Base URLs *)

Lemma replace_absent (old new s : string) :
  contains old s = false -> replace old new s = s.
Proof.
  unfold replace.
  induction s as [|c s IH]; [reflexivity|].
  cbn [contains replace_from].
  destruct (String.prefix old (String c s)); [discriminate|].
  intros H. rewrite (IH H). reflexivity.
Qed.

Lemma well_known_not_here (c : ascii) (rest : string) :
  String.prefix "/." (String c rest) = false ->
  String.prefix well_known (String c (rest ++ well_known)) = false.
Proof.
  unfold well_known. cbn [String.prefix].
  destruct (ascii_dec "/"%char c); [| reflexivity].
  destruct rest as [|d rest]; [intros _; reflexivity|].
  cbn [String.append String.prefix].
  destruct (ascii_dec "."%char d); cbn; intros H;
    [destruct rest; discriminate H | reflexivity].
Qed.

Lemma replace_well_known_suffix (base : string) :
  contains "/." base = false ->
  replace well_known "" (base ++ well_known) = base.
Proof.
  unfold replace.
  induction base as [|c base IH]; [intros _; reflexivity|].
  cbn [contains]. 
  destruct (String.prefix "/." (String c base)) eqn:Hhere; [discriminate|].
  intros Hlater.
  cbn [String.append replace_from].
  rewrite (well_known_not_here c base Hhere), (IH Hlater). reflexivity.
Qed.

(** X9.  The base URL stored for an endpoint is the endpoint without the
    well-known path: an endpoint [base/.well-known/agent.json] whose base
    has no "/." gets [base], and an endpoint that does not contain the
    path is its own base URL. *)
Theorem base_url_drops_the_well_known_path (url : string)
    (doc : agent_card) :
  (contains well_known url = false ->
   _base_url (stored_card url doc) = Some url)
  /\ (forall base : string,
        url = (base ++ well_known)%string -> contains "/." base = false ->
        _base_url (stored_card url doc) = Some base).
Proof.
  split.
  - intros Habsent. cbn. rewrite (replace_absent _ _ _ Habsent). reflexivity.
  - intros base -> Hbase. cbn.
    rewrite (replace_well_known_suffix base Hbase). reflexivity.
Qed.

Lemma base_url_drops_the_well_known_path_witness :
  _base_url
    (stored_card gateway_endpoint helper_doc)
  = Some "http://gateway:8080/a2a/illustration_agent".
Proof.
  apply (proj2 (base_url_drops_the_well_known_path gateway_endpoint
                  helper_doc)); reflexivity.
Defined.

(** ** More on dispatch and the synchronous path *)

(** [call_agent] does not read the trace. *)
Lemma call_agent_pure (env : environment) (agents : registry)
    (agent_name task user_id : string) (tr : list event) :
  call_agent env agents agent_name task user_id tr
  = (fst (call_agent env agents agent_name task user_id []), tr).
Proof.
  unfold call_agent.
  destruct (Dict.get agent_name agents) as [card|]; [| reflexivity].
  destruct (negb (truthy (get_or "" (_base_url card)))); [reflexivity|].
  unfold try_except, bind, await, ret, raise.
  destruct (http_post env _ task user_id) as [reply| |]; cbn;
    rewrite ?app_nil_r; try reflexivity.
  destruct reply; reflexivity.
Qed.

(** X10.  [call_agent] raises one of three errors and nothing else: the
    agent is not in the registry, its card has no base URL, or the remote
    call failed, which is reported as status 500 with the cause in the
    detail.  It never touches the queues. *)
Theorem call_agent_errors (env : environment) (agents : registry)
    (agent_name task user_id : string) (tr : list event) (e : exn) :
  fst (call_agent env agents agent_name task user_id tr) = Raises e ->
  snd (call_agent env agents agent_name task user_id tr) = tr
  /\ ((e = ValueError ("Agent '" ++ agent_name ++ "' not found")
       /\ Dict.get agent_name agents = None)
      \/ (e = ValueError
                ("No base URL stored for agent '" ++ agent_name ++ "'")
          /\ exists card,
               Dict.get agent_name agents = Some card
               /\ truthy (get_or "" (_base_url card)) = false)
      \/ (exists cause,
            e = HTTPException 500
                  ("Failed to call agent: " ++ str_exn env cause))).
Proof.
  rewrite call_agent_pure. cbn [fst snd]. intros H.
  split; [reflexivity|]. revert H.
  unfold call_agent.
  destruct (Dict.get agent_name agents) as [card|].
  2: { cbn. intros H. inversion H. left. split; reflexivity. }
  destruct (truthy (get_or "" (_base_url card))) eqn:Hbase; cbn [negb].
  2: { cbn. intros H. inversion H. right. left.
       split; [reflexivity|]. exists card. split; [reflexivity | exact Hbase]. }
  unfold try_except, bind, await, ret, raise.
  destruct (http_post env _ task user_id) as [reply|cause|]; cbn.
  - destruct reply; cbn; intros H; inversion H; right; right;
      eexists; reflexivity.
  - intros H. inversion H. right. right. eexists. reflexivity.
  - discriminate.
Qed.

Lemma call_agent_errors_witness :
  let env := sample_env travel_doc_nested
               (Raises (TransportError "timed out")) in
  exists cause,
    HTTPException 500 "Failed to call agent: timed out"
    = HTTPException 500 ("Failed to call agent: " ++ str_exn env cause).
Proof.
  cbv zeta.
  destruct (call_agent_errors
              (sample_env travel_doc_nested
                 (Raises (TransportError "timed out")))
              (discovered done_reply) "travel-agent" "hello" "ana" []
              (HTTPException 500 "Failed to call agent: timed out")
              eq_refl) as [_ [[H _] | [[H _] | H]]].
  - discriminate H.
  - discriminate H.
  - exact H.
Defined.

(** An agent the router selects is a key of the registry. *)
Lemma select_best_agent_member (agents : registry) (task : string)
    (preferred : option string) (agent_name : string) :
  select_best_agent agents task preferred = Some agent_name ->
  Dict.mem agent_name agents = true.
Proof.
  intros H.
  pose proof (selected_is_key_or_none agents task preferred) as Hsel.
  rewrite H in Hsel. exact Hsel.
Qed.

Lemma selected_some (selected_agent : option string) (a : string) :
  selected selected_agent = Some a ->
  selected_agent = Some a /\ a <> "".
Proof.
  unfold selected. destruct selected_agent as [n|]; [| discriminate].
  destruct n; cbn; [discriminate|].
  intros H. inversion H. split; [reflexivity | discriminate].
Qed.

Lemma selected_none (selected_agent : option string) :
  selected selected_agent = None ->
  selected_agent = None \/ selected_agent = Some "".
Proof.
  unfold selected. destruct selected_agent as [n|]; [| left; reflexivity].
  destruct n; cbn; [right; reflexivity | discriminate].
Qed.

(** What the validation of the response does. *)
Lemma task_response_spec (validate : json -> exn + string) (r : json)
    (a : string) (tr : list event) :
  match task_response validate r a tr with
  | (Returns response, tr') =>
      tr' = tr /\ agent_used response = a
      /\ orchestrator response = "orchestrator"
      /\ match r with
         | JStr text => result response = text
         | other => validate other = inr (result response)
         end
  | (Raises cause, tr') =>
      tr' = tr /\ (forall text, r <> JStr text) /\ validate r = inl cause
  | (Cancelled, _) => False
  end.
Proof.
  unfold task_response, ret, raise.
  destruct r; try (destruct (validate _) eqn:Hvalid; cbn;
                   repeat split; try discriminate; exact Hvalid).
  cbn. repeat split.
Qed.

(** Every way [execute_task] can end. *)
Lemma execute_task_cases (env : environment)
    (validate : json -> exn + string) (agents : registry)
    (request : TaskRequest) (tr : list event) :
  let chosen :=
    select_best_agent agents (task request) (preferred_agent request) in
  let reply agent_name :=
    fst (call_agent env agents agent_name (task request) (user_id request)
           tr) in
  snd (execute_task env validate agents request tr) = tr
  /\ match fst (execute_task env validate agents request tr) with
     | Returns response =>
         chosen = Some (agent_used response)
         /\ agent_used response <> ""
         /\ Dict.mem (agent_used response) agents = true
         /\ orchestrator response = "orchestrator"
         /\ exists r,
              reply (agent_used response) = Returns r
              /\ match r with
                 | JStr text => result response = text
                 | other => validate other = inr (result response)
                 end
     | Raises (HTTPException code detail) =>
         (code = 503 /\ agents = []
          /\ detail = "No agents available. Agent discovery may have failed.")
         \/ (code = 404 /\ agents <> [] /\ chosen = Some ""
             /\ detail = "No suitable agent found for this task")
         \/ (code = 500 /\ agents <> []
             /\ exists agent_name cause,
                  chosen = Some agent_name /\ agent_name <> ""
                  /\ detail = str_exn env cause
                  /\ (reply agent_name = Raises cause
                      \/ exists r,
                           reply agent_name = Returns r
                           /\ (forall text, r <> JStr text)
                           /\ validate r = inl cause))
     | Raises _ => False
     | Cancelled =>
         agents <> []
         /\ exists agent_name,
              chosen = Some agent_name /\ agent_name <> ""
              /\ reply agent_name = Cancelled
     end.
Proof.
  cbv zeta. unfold execute_task.
  destruct agents as [|entry rest] eqn:Hagents.
  { cbn. split; [reflexivity|]. left. repeat split. }
  rewrite <- Hagents.
  assert (Hne : agents <> []) by (rewrite Hagents; discriminate).
  clear Hagents.
  destruct (selected (select_best_agent agents (task request)
                        (preferred_agent request))) as [a|] eqn:Hsel.
  - apply selected_some in Hsel as [Hsel Hname].
    unfold try_except, bind, raise.
    rewrite (call_agent_pure env agents a (task request) (user_id request)
               tr).
    destruct (fst (call_agent env agents a (task request) (user_id request)
                     [])) as [r|cause|] eqn:Hcall; cbn [fst snd].
    + assert (Hkey : Dict.mem a agents = true)
        by exact (select_best_agent_member _ _ _ _ Hsel).
      pose proof (task_response_spec validate r a tr) as Hresp.
      destruct (task_response validate r a tr) as [[response|cause|] tr'];
        cbn [fst snd].
      * destruct Hresp as [-> [Hagent [Horch Hresult]]]. subst a.
        split; [reflexivity|].
        split; [exact Hsel|]. split; [exact Hname|].
        split; [exact Hkey|]. split; [exact Horch|].
        exists r. split; [rewrite call_agent_pure; exact Hcall | exact Hresult].
      * destruct Hresp as [-> [Hnot Hvalid]].
        split; [reflexivity|]. right. right.
        split; [reflexivity|]. split; [exact Hne|].
        exists a, cause. split; [exact Hsel|]. split; [exact Hname|].
        split; [reflexivity|]. right.
        exists r. split; [rewrite call_agent_pure; exact Hcall|].
        split; [exact Hnot | exact Hvalid].
      * contradiction Hresp.
    + split; [reflexivity|]. right. right.
      split; [reflexivity|]. split; [exact Hne|].
      exists a, cause. split; [exact Hsel|]. split; [exact Hname|].
      split; [reflexivity|]. left. rewrite call_agent_pure. exact Hcall.
    + split; [reflexivity|]. split; [exact Hne|].
      exists a. split; [exact Hsel|].
      split; [exact Hname | rewrite call_agent_pure; exact Hcall].
  - cbn. split; [reflexivity|]. right. left.
    split; [reflexivity|]. split; [exact Hne|].
    split; [| reflexivity].
    apply selected_none in Hsel as [Hsel | Hsel]; [| exact Hsel].
    pose proof (selected_is_key_or_none agents (task request)
                  (preferred_agent request)) as H.
    rewrite Hsel in H. contradiction (Hne H).
Qed.

(** X11.  The synchronous path never touches the queues and ends in one
    of these ways, each decided by the registry, the router's choice, the
    dispatcher's answer and the validation of the response: a response
    whose [agent_used] is the router's choice, a non-empty key of the
    registry, and whose result is the dispatcher's text (or what the
    validation made of another value); status 503 on an empty registry;
    status 404 when the router chose an agent with an empty name; status
    500 carrying the dispatcher's error or the validation error; or a
    cancellation of the dispatch. *)
Theorem execute_task_outcomes (env : environment)
    (validate : json -> exn + string) (agents : registry)
    (request : TaskRequest) (tr : list event) :
  let chosen :=
    select_best_agent agents (task request) (preferred_agent request) in
  let reply agent_name :=
    fst (call_agent env agents agent_name (task request) (user_id request)
           tr) in
  snd (execute_task env validate agents request tr) = tr
  /\ match fst (execute_task env validate agents request tr) with
     | Returns response =>
         chosen = Some (agent_used response)
         /\ agent_used response <> ""
         /\ Dict.mem (agent_used response) agents = true
         /\ orchestrator response = "orchestrator"
         /\ exists r,
              reply (agent_used response) = Returns r
              /\ match r with
                 | JStr text => result response = text
                 | other => validate other = inr (result response)
                 end
     | Raises (HTTPException code detail) =>
         (code = 503 /\ agents = []
          /\ detail = "No agents available. Agent discovery may have failed.")
         \/ (code = 404 /\ agents <> [] /\ chosen = Some ""
             /\ detail = "No suitable agent found for this task")
         \/ (code = 500 /\ agents <> []
             /\ exists agent_name cause,
                  chosen = Some agent_name /\ agent_name <> ""
                  /\ detail = str_exn env cause
                  /\ (reply agent_name = Raises cause
                      \/ exists r,
                           reply agent_name = Returns r
                           /\ (forall text, r <> JStr text)
                           /\ validate r = inl cause))
     | Raises _ => False
     | Cancelled =>
         agents <> []
         /\ exists agent_name,
              chosen = Some agent_name /\ agent_name <> ""
              /\ reply agent_name = Cancelled
     end.
Proof. exact (execute_task_cases env validate agents request tr). Qed.

Lemma mem_in_keys {V : Type} (k : string) (d : Dict.dict V) :
  Dict.mem k d = true -> In k (Dict.keys d).
Proof.
  unfold Dict.mem, Dict.keys.
  induction d as [|[k' v'] d IH]; cbn; [discriminate|].
  destruct (String.eqb k k') eqn:Hk.
  - apply String.eqb_eq in Hk. intros _. left. symmetry. exact Hk.
  - intros H. right. exact (IH H).
Qed.

(** X12.  When every agent of the registry has a non-empty name, the
    synchronous path never answers 404 "No suitable agent". *)
Theorem no_suitable_agent_needs_an_unnamed_agent (env : environment)
    (validate : json -> exn + string) (agents : registry)
    (request : TaskRequest) (tr : list event) (detail : string) :
  (forall n, In n (Dict.keys agents) -> n <> "") ->
  fst (execute_task env validate agents request tr)
  <> Raises (HTTPException 404 detail).
Proof.
  intros Hnamed Hraise.
  pose proof (execute_task_cases env validate agents request tr) as [_ H].
  cbv zeta in H. rewrite Hraise in H.
  destruct H as [[H _] | [[_ [_ [Hsel _]]] | [H _]]];
    [discriminate H | | discriminate H].
  apply select_best_agent_member, mem_in_keys in Hsel.
  exact (Hnamed "" Hsel eq_refl).
Qed.

Lemma no_suitable_agent_needs_an_unnamed_agent_witness :
  let env := sample_env travel_doc_nested done_reply in
  let request := mk_request "what time is it" "ana" None in
  fst (execute_task env strict_str burger_and_travel request [])
  = Raises (HTTPException 500 "No base URL stored for agent 'burger-agent'")
  /\ fst (execute_task env strict_str burger_and_travel request [])
     <> Raises (HTTPException 404 "No suitable agent found for this task").
Proof.
  cbv zeta. split; [reflexivity|].
  apply (no_suitable_agent_needs_an_unnamed_agent
           (sample_env travel_doc_nested done_reply) strict_str
           burger_and_travel
           (mk_request "what time is it" "ana" None) []).
  intros n [<- | [<- | []]]; discriminate.
Defined.

(** ** More on the two submission paths *)

(** Every way [execute_task_async] can end. *)
Lemma execute_task_async_cases
    (service_bus_client : option ServiceBusClient) (env : environment)
    (request : TaskRequest) (tr : list event) :
  execute_task_async service_bus_client env request tr
  = match service_bus_client with
    | None =>
        (Raises
           (HTTPException 503
              "Service Bus not available. Use /task for synchronous execution."),
         tr)
    | Some client =>
        match send_messages client "agent-tasks" (task_message request) with
        | Returns _ =>
            (Returns "queued",
             tr ++ [Sent "agent-tasks" (task_message request)])
        | Raises cause =>
            (Raises
               (HTTPException 500
                  ("Failed to queue task: " ++ str_exn env cause)),
             tr)
        | Cancelled => (Cancelled, tr)
        end
    end.
Proof.
  unfold execute_task_async.
  destruct service_bus_client as [client|]; [| reflexivity].
  unfold try_except, bind, await, ret, raise.
  destruct (send_messages client "agent-tasks" (task_message request));
    reflexivity.
Qed.

(** X13.  What the enqueue path does is decided by the client and the
    send: without a client it fails with status 503 and sends nothing;
    with one, it answers "queued" with exactly one message put on the task
    queue when the send returns, fails with status 500 and the cause, with
    nothing sent, when the send raises, and is cancelled with nothing sent
    when the send is. *)
Theorem execute_task_async_outcomes
    (service_bus_client : option ServiceBusClient) (env : environment)
    (request : TaskRequest) (tr : list event) :
  execute_task_async service_bus_client env request tr
  = match service_bus_client with
    | None =>
        (Raises
           (HTTPException 503
              "Service Bus not available. Use /task for synchronous execution."),
         tr)
    | Some client =>
        match send_messages client "agent-tasks" (task_message request) with
        | Returns _ =>
            (Returns "queued",
             tr ++ [Sent "agent-tasks" (task_message request)])
        | Raises cause =>
            (Raises
               (HTTPException 500
                  ("Failed to queue task: " ++ str_exn env cause)),
             tr)
        | Cancelled => (Cancelled, tr)
        end
    end.
Proof.
  exact (execute_task_async_cases service_bus_client env request tr).
Qed.





(** ** More on the queue processor *)

Ltac processor_leaf :=
  cbn [snd]; rewrite <- ?app_assoc; cbn [app];
  match goal with
  | |- exists events, ?tr = ?tr ++ events /\ _ =>
      exists []; split; [symmetry; apply app_nil_r|]
  | |- exists events, ?tr ++ ?l = ?tr ++ events /\ _ =>
      exists l; split; [reflexivity|]
  end;
  split;
  [ repeat (apply Forall_cons || apply Forall_nil); unfold processor_event;
    first [ left; eexists; reflexivity
          | right; left; reflexivity
          | right; right; eexists; reflexivity ]
  | cbn; lia ].

(** X16.  Whatever fails or is cancelled, handling a message only appends
    to the trace, and only responses sent to "agent-responses", the
    completion of that message or its dead-lettering with reason
    "ProcessingError": it never abandons, never settles another message,
    and settles its own at most once. *)
Theorem process_message_events (client : ServiceBusClient)
    (env : environment) (agents : registry) (msg : received_message)
    (tr : list event) :
  exists events,
    snd (process_message client env agents msg tr) = tr ++ events
    /\ Forall (processor_event msg) events
    /\ List.length (settlements events) <= 1.
Proof.
  unfold process_message, message_task.
  unfold try_except, bind, ret, raise, await.
  destruct (application_properties msg) as [properties|].
  2: { destruct (dead_letter_message client msg _ _); processor_leaf. }
  destruct (selected _) as [agent|].
  - rewrite call_agent_pure.
    destruct (fst (call_agent env agents agent (body msg) _ []))
      as [r|e|].
    + destruct (send_messages client "agent-responses" _) as [u|e|].
      * destruct (complete_message client msg) as [u'|e|].
        -- processor_leaf.
        -- destruct (dead_letter_message client msg _ _); processor_leaf.
        -- processor_leaf.
      * destruct (dead_letter_message client msg _ _); processor_leaf.
      * processor_leaf.
    + destruct (dead_letter_message client msg _ _); processor_leaf.
    + processor_leaf.
  - destruct (complete_message client msg) as [u'|e|].
    + processor_leaf.
    + destruct (dead_letter_message client msg _ _); processor_leaf.
    + processor_leaf.
Qed.

(** X17.  When the dispatch to the selected agent fails, the message is
    dead-lettered with reason "ProcessingError" and the text of the error,
    and no response is published. *)
Theorem dispatch_failure_dead_letters (client : ServiceBusClient)
    (env : environment) (agents : registry) (msg : received_message)
    (properties : list (string * string)) (agent : string) (e : exn)
    (tr : list event) :
  application_properties msg = Some properties ->
  routed_agent agents msg = Some agent ->
  fst (call_agent env agents agent (body msg)
         (get_or "anonymous" (Dict.get "user_id" properties)) tr)
  = Raises e ->
  dead_letter_message client msg "ProcessingError" (str_exn env e)
  = Returns tt ->
  process_message client env agents msg tr
  = (Returns tt, tr ++ [DeadLettered msg "ProcessingError" (str_exn env e)]).
Proof.
  intros Hprops Hrouted Hcall Hdead.
  unfold routed_agent in Hrouted. rewrite Hprops in Hrouted.
  unfold process_message. rewrite Hprops.
  unfold try_except, bind, ret, raise. cbn [fst snd].
  rewrite Hrouted. unfold message_task.
  rewrite call_agent_pure in Hcall. cbn [fst] in Hcall.
  rewrite call_agent_pure, Hcall.
  unfold await. rewrite Hdead. reflexivity.
Qed.

Lemma dispatch_failure_dead_letters_witness :
  let env := sample_env travel_doc_nested
               (Raises (TransportError "timed out")) in
  let msg := delivered "m1" "Convert 100 USD to EUR" "ana" in
  process_message reliable_client env (discovered done_reply) msg []
  = (Returns tt,
     [DeadLettered msg "ProcessingError"
        "Failed to call agent: timed out"]).
Proof.
  cbv zeta.
  apply (dispatch_failure_dead_letters reliable_client
           (sample_env travel_doc_nested
              (Raises (TransportError "timed out")))
           (discovered done_reply)
           (delivered "m1" "Convert 100 USD to EUR" "ana")
           [("user_id", "ana"); ("preferred_agent", "")]
           "travel-agent"
           (HTTPException 500 "Failed to call agent: timed out") []);
    reflexivity.
Defined.

(** Processing a message raises only when the dead-letter call raises. *)
Lemma process_message_raises (client : ServiceBusClient)
    (env : environment) (agents : registry) (msg : received_message)
    (tr : list event) (e : exn) :
  fst (process_message client env agents msg tr) = Raises e ->
  exists d, dead_letter_message client msg "ProcessingError" d = Raises e.
Proof.
  unfold process_message, message_task.
  unfold try_except, bind, ret, raise, await.
  destruct (application_properties msg) as [properties|].
  2: { destruct (dead_letter_message client msg _ _) eqn:Hd; cbn;
         try discriminate.
       intros H. inversion H; subst. eexists. exact Hd. }
  destruct (selected _) as [agent|].
  - rewrite call_agent_pure.
    destruct (fst (call_agent env agents agent (body msg) _ []))
      as [r|e0|]; [| | discriminate].
    + destruct (send_messages client "agent-responses" _) as [u|e0|];
        [| | discriminate].
      * destruct (complete_message client msg) as [u'|e0|];
          [discriminate | | discriminate].
        destruct (dead_letter_message client msg _ _) eqn:Hd; cbn;
          try discriminate.
        intros H. inversion H; subst. eexists. exact Hd.
      * destruct (dead_letter_message client msg _ _) eqn:Hd; cbn;
          try discriminate.
        intros H. inversion H; subst. eexists. exact Hd.
    + destruct (dead_letter_message client msg _ _) eqn:Hd; cbn;
        try discriminate.
      intros H. inversion H; subst. eexists. exact Hd.
  - destruct (complete_message client msg) as [u'|e0|];
      [discriminate | | discriminate].
    destruct (dead_letter_message client msg _ _) eqn:Hd; cbn;
      try discriminate.
    intros H. inversion H; subst. eexists. exact Hd.
Qed.

(** X18.  Handling a message raises only when the dead-letter call
    raises; the rest of the batch is then not handled in this iteration,
    and after the handler's sleep the loop goes on with the next receive
    (if that sleep is cancelled, the cancellation ends the processor). *)
Theorem failed_dead_letter_skips_rest_of_batch (client : ServiceBusClient)
    (env : environment) (agents : registry) (msg : received_message)
    (rest : list received_message) (cancelled : bool)
    (iterations : list iteration) (tr : list event) (e : exn) :
  fst (process_message client env agents msg tr) = Raises e ->
  (exists d, dead_letter_message client msg "ProcessingError" d = Raises e)
  /\ process_batch client env agents (msg :: rest) tr
     = process_message client env agents msg tr
  /\ queue_loop client env agents
       (mk_iteration (Returns (msg :: rest)) cancelled :: iterations) tr
     = if cancelled
       then (Cancelled, snd (process_message client env agents msg tr))
       else queue_loop client env agents iterations
              (snd (process_message client env agents msg tr)).
Proof.
  intros Hraise.
  split; [exact (process_message_raises _ _ _ _ _ _ Hraise)|].
  assert (Hbatch : process_batch client env agents (msg :: rest) tr
                   = process_message client env agents msg tr).
  { cbn [process_batch]. unfold bind.
    destruct (process_message client env agents msg tr) as [[u|e'|] tr'];
      [discriminate Hraise | reflexivity | reflexivity]. }
  split; [exact Hbatch|].
  cbn [queue_loop receive sleep_cancelled].
  unfold bind at 1, await at 1. rewrite app_nil_r.
  rewrite Hbatch.
  destruct (process_message client env agents msg tr) as [[u|e'|] tr'];
    [discriminate Hraise | reflexivity | discriminate Hraise].
Qed.

Lemma failed_dead_letter_skips_rest_of_batch_witness :
  let env := sample_env travel_doc_nested done_reply in
  queue_loop failing_dead_letter env (discovered done_reply)
    [mk_iteration
       (Returns [bare_message "m1" "hello";
                 delivered "m2" "Convert 100 USD to EUR" "ana"])
       false] []
  = (Returns tt, []).
Proof.
  cbv zeta.
  destruct (failed_dead_letter_skips_rest_of_batch failing_dead_letter
              (sample_env travel_doc_nested done_reply)
              (discovered done_reply) (bare_message "m1" "hello")
              [delivered "m2" "Convert 100 USD to EUR" "ana"] false [] []
              (TransportError "lock lost") eq_refl) as [_ [_ Hloop]].
  exact Hloop.
Defined.

(** X19.  Over a whole run of the loop in which no await is cancelled
    (receives, calls and sleeps) and the dead-letter calls succeed, every
    message of every received batch is settled exactly as
    [message_outcome] says, in order; a receive that fails is skipped. *)
Theorem queue_loop_settles_every_message (client : ServiceBusClient)
    (env : environment) (agents : registry)
    (iterations : list iteration) (tr : list event) :
  (forall msg reason d,
     In msg (delivered_messages (map receive iterations)) ->
     dead_letter_message client msg reason d = Returns tt) ->
  never_cancelled client env ->
  (forall this, In this iterations ->
     receive this <> Cancelled /\ sleep_cancelled this = false) ->
  exists per_message,
    queue_loop client env agents iterations tr
    = (Returns tt, tr ++ List.concat per_message)
    /\ Forall2 (message_outcome agents)
         (delivered_messages (map receive iterations)) per_message.
Proof.
  intros Hdead Hlive Hawake. revert tr.
  induction iterations as [|[received asleep] rest IH]; intros tr.
  - exists []. cbn. rewrite app_nil_r. split; [reflexivity | constructor].
  - assert (Hdead' : forall msg reason d,
              In msg (delivered_messages (map receive rest)) ->
              dead_letter_message client msg reason d = Returns tt).
    { intros msg reason d Hin. apply Hdead.
      cbn [map delivered_messages flat_map].
      apply in_or_app. right. exact Hin. }
    assert (Hawake' : forall it, In it rest ->
              receive it <> Cancelled /\ sleep_cancelled it = false)
      by (intros it Hin; apply Hawake; right; exact Hin).
    specialize (IH Hdead' Hawake').
    destruct (Hawake _ (or_introl eq_refl)) as [Hreceive Hsleep].
    cbn [receive sleep_cancelled] in Hreceive, Hsleep. subst asleep.
    cbn [queue_loop receive sleep_cancelled map delivered_messages flat_map]
      in *.
    unfold bind at 1, await at 1.
    destruct received as [batch|e|].
    + rewrite app_nil_r.
      destruct (process_batch_outcomes client env agents batch tr)
        as [per [Hbatch Hall]]; [| exact Hlive |].
      { intros msg reason d Hin. apply Hdead.
        apply in_or_app. left. exact Hin. }
      rewrite Hbatch.
      destruct (IH (tr ++ List.concat per)) as [per' [Hrest Hall']].
      exists (per ++ per'). rewrite Hrest, concat_app, app_assoc.
      split; [reflexivity|].
      apply Forall2_app; assumption.
    + destruct (IH tr) as [per' [Hrest Hall']].
      exists per'. split; [exact Hrest | exact Hall'].
    + contradiction Hreceive. reflexivity.
Qed.

Lemma queue_loop_settles_every_message_witness :
  let env := sample_env travel_doc_nested done_reply in
  let iterations :=
    [mk_iteration (Raises (TransportError "link detached")) false;
     mk_iteration (Returns [delivered "m1" "Convert 100 USD to EUR" "ana"])
       false] in
  exists per_message,
    queue_loop reliable_client env (discovered done_reply) iterations []
    = (Returns tt, [] ++ List.concat per_message)
    /\ Forall2 (message_outcome (discovered done_reply))
         (delivered_messages (map receive iterations)) per_message.
Proof.
  cbv zeta.
  apply (queue_loop_settles_every_message reliable_client
           (sample_env travel_doc_nested done_reply) (discovered done_reply)
           [mk_iteration (Raises (TransportError "link detached")) false;
            mk_iteration
              (Returns [delivered "m1" "Convert 100 USD to EUR" "ana"])
              false] []).
  - intros msg reason d _. reflexivity.
  - repeat split; intros; discriminate.
  - intros this [<- | [<- | []]]; split; [discriminate | reflexivity
                                         | discriminate | reflexivity].
Defined.

(** One iteration of the loop. *)
Lemma queue_loop_step (client : ServiceBusClient) (env : environment)
    (agents : registry) (this : iteration) (rest : list iteration)
    (tr : list event) :
  queue_loop client env agents (this :: rest) tr
  = match receive this with
    | Returns batch =>
        match process_batch client env agents batch tr with
        | (Returns _, tr') =>
            if sleep_cancelled this then (Returns tt, tr')
            else queue_loop client env agents rest tr'
        | (Cancelled, tr') => (Returns tt, tr')
        | (Raises _, tr') =>
            if sleep_cancelled this then (Cancelled, tr')
            else queue_loop client env agents rest tr'
        end
    | Raises _ =>
        if sleep_cancelled this then (Cancelled, tr)
        else queue_loop client env agents rest tr
    | Cancelled => (Returns tt, tr)
    end.
Proof.
  cbn [queue_loop]. unfold bind, await.
  destruct (receive this) as [batch|e|]; [| reflexivity | reflexivity].
  rewrite app_nil_r. reflexivity.
Qed.

(** The loop stops at an iteration whose receive or sleep is cancelled. *)
Lemma queue_loop_stops (client : ServiceBusClient) (env : environment)
    (agents : registry) (before : list iteration) (this : iteration)
    (after : list iteration) (tr : list event) :
  receive this = Cancelled \/ sleep_cancelled this = true ->
  queue_loop client env agents (before ++ this :: after) tr
  = queue_loop client env agents (before ++ [this]) tr.
Proof.
  intros Hstop. revert tr.
  induction before as [|earlier before IH]; intros tr.
  - cbn [app]. rewrite !queue_loop_step.
    destruct Hstop as [Hreceive | Hsleep].
    + rewrite Hreceive. reflexivity.
    + rewrite Hsleep. reflexivity.
  - cbn [app]. rewrite !queue_loop_step.
    destruct (receive earlier) as [batch|e|]; [| | reflexivity].
    + destruct (process_batch client env agents batch tr) as [[u|e|] tr'];
        [| | reflexivity];
        destruct (sleep_cancelled earlier); try reflexivity; apply IH.
    + destruct (sleep_cancelled earlier); [reflexivity | apply IH].
Qed.

(** How a run of the loop ends. *)
Lemma queue_loop_ends (client : ServiceBusClient) (env : environment)
    (agents : registry) (iterations : list iteration) (tr : list event) :
  fst (queue_loop client env agents iterations tr) = Returns tt
  \/ (fst (queue_loop client env agents iterations tr) = Cancelled
      /\ exists this e,
           In this iterations /\ sleep_cancelled this = true
           /\ (receive this = Raises e
               \/ exists batch tr',
                    receive this = Returns batch
                    /\ fst (process_batch client env agents batch tr')
                       = Raises e)).
Proof.
  revert tr. induction iterations as [|this rest IH]; intros tr.
  - left. reflexivity.
  - assert (Hlater :
      forall tr',
        fst (queue_loop client env agents rest tr') = Returns tt
        \/ (fst (queue_loop client env agents rest tr') = Cancelled
            /\ exists it e,
                 In it (this :: rest) /\ sleep_cancelled it = true
                 /\ (receive it = Raises e
                     \/ exists batch tr'',
                          receive it = Returns batch
                          /\ fst (process_batch client env agents batch tr'')
                             = Raises e))).
    { intros tr'. destruct (IH tr') as [H | [H [it [e [Hin Hrest]]]]];
        [left; exact H | right].
      split; [exact H|]. exists it, e.
      split; [right; exact Hin | exact Hrest]. }
    rewrite queue_loop_step.
    destruct (receive this) as [batch|e|] eqn:Hreceive.
    + destruct (process_batch client env agents batch tr)
        as [[u|e|] tr'] eqn:Hbatch.
      * destruct (sleep_cancelled this); [left; reflexivity | apply Hlater].
      * destruct (sleep_cancelled this) eqn:Hsleep; [| apply Hlater].
        right. split; [reflexivity|]. exists this, e.
        split; [left; reflexivity|]. split; [exact Hsleep|].
        right. exists batch, tr. split; [exact Hreceive|].
        rewrite Hbatch. reflexivity.
      * left. reflexivity.
    + destruct (sleep_cancelled this) eqn:Hsleep; [| apply Hlater].
      right. split; [reflexivity|]. exists this, e.
      split; [left; reflexivity|]. split; [exact Hsleep|].
      left. exact Hreceive.
    + left. reflexivity.
Qed.

(** X20.  Without a client the queue processor does nothing.  With one, it
    never raises an exception: it returns, or it ends cancelled, and that
    only when the handler's sleep after a failed iteration is cancelled;
    and nothing is received or handled after an iteration whose receive
    or sleep is cancelled. *)
Theorem queue_loop_never_raises
    (service_bus_client : option ServiceBusClient) (env : environment)
    (agents : registry) (iterations : list iteration) (tr : list event) :
  let run := process_queue_messages service_bus_client env agents in
  (service_bus_client = None -> run iterations tr = (Returns tt, tr))
  /\ (fst (run iterations tr) = Returns tt
      \/ (fst (run iterations tr) = Cancelled
          /\ exists client this e,
               service_bus_client = Some client
               /\ In this iterations /\ sleep_cancelled this = true
               /\ (receive this = Raises e
                   \/ exists batch tr',
                        receive this = Returns batch
                        /\ fst (process_batch client env agents batch tr')
                           = Raises e)))
  /\ (forall before this after,
        iterations = before ++ this :: after ->
        receive this = Cancelled \/ sleep_cancelled this = true ->
        run iterations tr = run (before ++ [this]) tr).
Proof.
  cbv zeta. unfold process_queue_messages.
  destruct service_bus_client as [client|].
  - split; [discriminate|]. split.
    + destruct (queue_loop_ends client env agents iterations tr)
        as [H | [H [this [e Hrest]]]]; [left; exact H | right].
      split; [exact H|]. exists client, this, e.
      split; [reflexivity | exact Hrest].
    + intros before this after -> Hstop.
      apply queue_loop_stops. exact Hstop.
  - split; [reflexivity|]. split; [left; reflexivity|].
    intros before this after _ _. reflexivity.
Qed.

(** ** More on the response reader *)

Lemma get_responses_only_matching_witness :
  Forall (fun r => r_user_id r = "ana")
    [record_of (published "r1" "85 EUR" "ana")].
Proof.
  apply (get_responses_only_matching reliable_client
           (sample_env travel_doc_nested done_reply) "ana" 10
           [Returns (published "r0" "92 USD" "bob");
            Returns (published "r1" "85 EUR" "ana")] []
           (page_of "ana" [record_of (published "r1" "85 EUR" "ana")])).
  - discriminate.
  - reflexivity.
Defined.

(** X22.  With a bound of at least one and no failing acknowledgement,
    [get_responses] returns at most [max_messages] records, and [total] is
    their number. *)
Theorem get_responses_bounded (client : ServiceBusClient)
    (env : environment) (user_id : string) (max_messages : Z)
    (deliveries : list (outcome received_message)) (tr : list event)
    (page : responses_page) :
  (1 <= max_messages)%Z ->
  (forall m e, complete_message client m <> Raises e) ->
  fst (get_responses (Some client) env user_id max_messages deliveries tr)
  = Returns page ->
  total page = List.length (responses page)
  /\ (Z.of_nat (total page) <= max_messages)%Z
  /\ page_user_id page = user_id.
Proof.
  intros Hone Hack. unfold get_responses, try_except, bind, ret, raise.
  destruct (receive_loop client user_id max_messages deliveries [] tr)
    as [[found|e|] tr'] eqn:Hloop; [| discriminate | discriminate].
  cbn. intros H. inversion H. subst. cbn.
  split; [reflexivity|]. split; [| reflexivity].
  apply (receive_loop_bounded client user_id max_messages Hack deliveries
           [] tr found).
  - cbn. lia.
  - rewrite Hloop. reflexivity.
Qed.

Lemma get_responses_bounded_witness :
  let page := page_of "all" [record_of (published "r0" "92 USD" "bob")] in
  total page = List.length (responses page)
  /\ (Z.of_nat (total page) <= 1)%Z
  /\ page_user_id page = "all".
Proof.
  cbv zeta.
  apply (get_responses_bounded reliable_client
           (sample_env travel_doc_nested done_reply) "all" 1
           [Returns (published "r0" "92 USD" "bob");
            Returns (published "r1" "85 EUR" "ana")] []
           (page_of "all" [record_of (published "r0" "92 USD" "bob")])).
  - lia.
  - intros m e. discriminate.
  - reflexivity.
Defined.

(** X23.  When fewer messages match than the bound, [get_responses]
    returns the records of all matching messages in delivery order, and
    completes every message it inspected, matching or not. *)
Theorem every_inspected_response_is_completed (client : ServiceBusClient)
    (env : environment) (user_id : string) (max_messages : Z)
    (inspected : list received_message) (tr : list event) :
  (forall m, In m inspected -> complete_message client m = Returns tt) ->
  (Z.of_nat (List.length (filter (matches user_id) inspected))
   < max_messages)%Z ->
  get_responses (Some client) env user_id max_messages
    (map Returns inspected) tr
  = (Returns (page_of user_id (matching_records user_id inspected)),
     tr ++ map Completed inspected).
Proof.
  intros Hack Hroom.
  unfold get_responses, try_except, bind at 1.
  pose proof (receive_loop_acknowledged client user_id max_messages
                inspected [] Hack [] tr Hroom) as Hloop.
  rewrite app_nil_r in Hloop. rewrite Hloop. reflexivity.
Qed.

Lemma every_inspected_response_is_completed_witness :
  let env := sample_env travel_doc_nested done_reply in
  let for_bob := published "r0" "92 USD" "bob" in
  let for_ana := published "r1" "85 EUR" "ana" in
  get_responses (Some reliable_client) env "ana" 10
    [Returns for_bob; Returns for_ana] []
  = (Returns (page_of "ana" [record_of for_ana]),
     [Completed for_bob; Completed for_ana]).
Proof.
  cbv zeta.
  apply (every_inspected_response_is_completed reliable_client
           (sample_env travel_doc_nested done_reply) "ana" 10
           [published "r0" "92 USD" "bob"; published "r1" "85 EUR" "ana"]
           []).
  - intros m _. reflexivity.
  - reflexivity.
Defined.

(** X24.  [get_responses] stops at the match that reaches the bound: the
    messages delivered after it are neither read nor settled, whatever
    they are. *)
Theorem fetch_stops_at_the_bound (client : ServiceBusClient)
    (env : environment) (user_id : string) (max_messages : Z)
    (inspected : list received_message) (last : received_message)
    (rest : list (outcome received_message)) (tr : list event) :
  (forall m, In m inspected -> complete_message client m = Returns tt) ->
  complete_message client last = Returns tt ->
  matches user_id last = true ->
  (Z.of_nat (List.length (filter (matches user_id) inspected)) + 1
   = max_messages)%Z ->
  get_responses (Some client) env user_id max_messages
    (map Returns inspected ++ Returns last :: rest) tr
  = (Returns (page_of user_id
                (matching_records user_id (inspected ++ [last]))),
     tr ++ map Completed (inspected ++ [last])).
Proof.
  intros Hack Hlast Hmatch Hfull.
  unfold get_responses, try_except, bind at 1.
  rewrite (receive_loop_acknowledged client user_id max_messages
             inspected (Returns last :: rest) Hack [] tr) by (cbn; lia).
  cbn [receive_loop app]. unfold bind at 1, await at 1.
  unfold await. rewrite Hmatch, Hlast, app_nil_r.
  unfold matching_records. rewrite filter_app, !map_app. cbn [filter].
  rewrite Hmatch. cbn [map].
  replace (Z.of_nat
             (List.length
                (map record_of (filter (matches user_id) inspected)
                 ++ [record_of last])) >=? max_messages)%Z with true.
  - rewrite <- app_assoc. reflexivity.
  - symmetry. rewrite Z.geb_leb. apply Z.leb_le.
    rewrite length_app, length_map. cbn [List.length]. lia.
Qed.

Lemma fetch_stops_at_the_bound_witness :
  let env := sample_env travel_doc_nested done_reply in
  let first := published "r0" "92 USD" "bob" in
  let second := published "r1" "85 EUR" "ana" in
  get_responses (Some reliable_client) env "all" 1
    [Returns first; Returns second;
     Raises (TransportError "link detached")] []
  = (Returns (page_of "all" [record_of first]), [Completed first]).
Proof.
  cbv zeta.
  apply (fetch_stops_at_the_bound reliable_client
           (sample_env travel_doc_nested done_reply) "all" 1 []
           (published "r0" "92 USD" "bob")
           [Returns (published "r1" "85 EUR" "ana");
            Raises (TransportError "link detached")] []).
  - intros m [].
  - reflexivity.
  - reflexivity.
  - reflexivity.
Defined.

Lemma reader_event_later (delivery : outcome received_message)
    (deliveries : list (outcome received_message)) (events : list event) :
  Forall (reader_event deliveries) events ->
  Forall (reader_event (delivery :: deliveries)) events.
Proof.
  apply Forall_impl. intros e [m [Hin He]].
  exists m. split; [right; exact Hin | exact He].
Qed.

Lemma receive_loop_events (client : ServiceBusClient) (user_id : string)
    (max_messages : Z) (deliveries : list (outcome received_message)) :
  forall (collected : list response_record) (tr : list event),
  exists events,
    snd (receive_loop client user_id max_messages deliveries collected tr)
    = tr ++ events
    /\ Forall (reader_event deliveries) events.
Proof.
  induction deliveries as [|delivery rest IH]; intros collected tr.
  - exists []. cbn. rewrite app_nil_r. split; [reflexivity | constructor].
  - cbn [receive_loop]. unfold bind at 1, await at 1.
    destruct delivery as [m|e|].
    2, 3: exists []; cbn; rewrite app_nil_r; split;
          [reflexivity | constructor].
    rewrite app_nil_r.
    set (collected' := if matches user_id m
                       then collected ++ [record_of m] else collected).
    unfold await at 1.
    destruct (complete_message client m) as [u|e|].
    + destruct (Z.of_nat (List.length collected') >=? max_messages)%Z.
      * exists [Completed m]. split; [reflexivity|].
        constructor; [| constructor].
        exists m. split; [left; reflexivity | left; reflexivity].
      * destruct (IH collected' (tr ++ [Completed m])) as [events [Hev Hall]].
        exists (Completed m :: events). rewrite Hev, <- app_assoc.
        split; [reflexivity|].
        constructor; [| apply reader_event_later; exact Hall].
        exists m. split; [left; reflexivity | left; reflexivity].
    + unfold bind, await.
      destruct (abandon_message client m) as [u|e'|].
      * destruct (IH collected' (tr ++ [Abandoned m])) as [events [Hev Hall]].
        exists (Abandoned m :: events). rewrite Hev, <- app_assoc.
        split; [reflexivity|].
        constructor; [| apply reader_event_later; exact Hall].
        exists m. split; [left; reflexivity | right; reflexivity].
      * exists []. cbn. rewrite app_nil_r. split; [reflexivity | constructor].
      * exists []. cbn. rewrite app_nil_r. split; [reflexivity | constructor].
    + exists []. cbn. rewrite app_nil_r. split; [reflexivity | constructor].
Qed.

(** X25.  Whatever happens, [get_responses] only completes or abandons
    messages it was delivered, it never sends or dead-letters; and the
    only errors it raises are status 503 without a client and status 500
    with the cause. *)
Theorem get_responses_effects
    (service_bus_client : option ServiceBusClient) (env : environment)
    (user_id : string) (max_messages : Z)
    (deliveries : list (outcome received_message)) (tr : list event) :
  let run :=
    get_responses service_bus_client env user_id max_messages deliveries tr in
  (exists events,
     snd run = tr ++ events /\ Forall (reader_event deliveries) events)
  /\ (forall e, fst run = Raises e ->
        (service_bus_client = None
         /\ e = HTTPException 503 "Service Bus not available")
        \/ exists cause,
             e = HTTPException 500
                   ("Failed to fetch responses: " ++ str_exn env cause)).
Proof.
  cbv zeta. unfold get_responses.
  destruct service_bus_client as [client|].
  2: { split.
       - exists []. cbn. rewrite app_nil_r. split; [reflexivity | constructor].
       - cbn. intros e H. inversion H. left. split; reflexivity. }
  unfold try_except, bind, ret, raise.
  destruct (receive_loop_events client user_id max_messages deliveries [] tr)
    as [events [Hev Hall]].
  destruct (receive_loop client user_id max_messages deliveries [] tr)
    as [[found|cause|] tr']; cbn [fst snd] in *; subst tr'.
  - split; [exists events; split; [reflexivity | exact Hall]|].
    discriminate.
  - split; [exists events; split; [reflexivity | exact Hall]|].
    intros e H. inversion H. right. eexists. reflexivity.
  - split; [exists events; split; [reflexivity | exact Hall]|].
    discriminate.
Qed.

(** ** Startup *)

(** X26.  When the namespace is not configured or the client cannot be
    built, startup leaves no client: the queue processor is not started
    and does nothing, [health] reports the bus as not connected, and the
    enqueue path and the response reader answer 503 without touching a
    queue. *)
Theorem without_service_bus_queue_paths_are_refused (env : environment)
    (endpoints : list string) (namespace : string)
    (connect : string -> exn + ServiceBusClient) (state : app_state) :
  namespace = "" \/ (exists e, connect namespace = inl e) ->
  startup env endpoints namespace connect = Returns state ->
  processor_started state = false
  /\ service_bus_connected (health (app_agents state) (app_client state))
     = false
  /\ (forall request tr,
        execute_task_async (app_client state) env request tr
        = (Raises
             (HTTPException 503
                "Service Bus not available. Use /task for synchronous execution."),
           tr))
  /\ (forall user_id max_messages deliveries tr,
        get_responses (app_client state) env user_id max_messages
          deliveries tr
        = (Raises (HTTPException 503 "Service Bus not available"), tr))
  /\ (forall iterations tr,
        process_queue_messages (app_client state) env (app_agents state)
          iterations tr
        = (Returns tt, tr)).
Proof.
  intros Hdown. unfold startup.
  destruct (discover_all_agents env endpoints []) as [[u|e|] agents];
    [| discriminate | discriminate].
  assert (Hnone : setup_service_bus namespace connect = None).
  { unfold setup_service_bus. destruct Hdown as [-> | [e He]];
      [reflexivity|].
    rewrite He. destruct (negb (truthy namespace)); reflexivity. }
  rewrite Hnone. intros H. inversion H. subst state. cbn.
  repeat split.
Qed.

Lemma without_service_bus_queue_paths_are_refused_witness :
  let env := sample_env travel_doc_nested done_reply in
  get_responses None env "ana" 10 [Returns (published "r1" "85 EUR" "ana")]
    []
  = (Raises (HTTPException 503 "Service Bus not available"), []).
Proof.
  cbv zeta.
  destruct (without_service_bus_queue_paths_are_refused
              (sample_env travel_doc_nested done_reply)
              [helper_endpoint; travel_endpoint] ""
              (fun _ => inr reliable_client)
              (mk_state (discovered done_reply) None false)
              (or_introl eq_refl) eq_refl) as [_ [_ [_ [Hread _]]]].
  exact (Hread "ana" 10%Z [Returns (published "r1" "85 EUR" "ana")] []).
Defined.

Lemma nothing_stored_when_every_fetch_fails (env : environment)
    (endpoints : list string) :
  (forall url, exists e, http_get env url = Raises e) ->
  stored_in_pass env endpoints = [].
Proof.
  intros Hfail.
  induction endpoints as [|endpoint rest IH]; [reflexivity|].
  cbn [stored_in_pass].
  destruct (negb (truthy (strip endpoint))); [exact IH|].
  destruct (Hfail (strip endpoint)) as [e He]. rewrite He. exact IH.
Qed.

(** X27.  When no endpoint answers, startup still completes, with an empty
    registry; [health] counts no agent and every synchronous task is
    answered 503 "No agents available". *)
Theorem startup_with_no_agent_answering (env : environment)
    (endpoints : list string) (namespace : string)
    (connect : string -> exn + ServiceBusClient) :
  (forall url, exists e, http_get env url = Raises e) ->
  exists state,
    startup env endpoints namespace connect = Returns state
    /\ app_agents state = []
    /\ agents_discovered (health (app_agents state) (app_client state)) = 0
    /\ forall validate request tr,
         execute_task env validate (app_agents state) request tr
         = (Raises
              (HTTPException 503
                 "No agents available. Agent discovery may have failed."),
            tr).
Proof.
  intros Hfail. unfold startup.
  pose proof (discover_all_as_writes env endpoints []) as Hsnd.
  rewrite (nothing_stored_when_every_fetch_fails env endpoints Hfail)
    in Hsnd.
  pose proof (discover_all_returns env endpoints []) as Hfst.
  destruct (discover_all_agents env endpoints []) as [res agents].
  cbn in Hsnd, Hfst. subst agents. rewrite Hfst.
  - eexists. split; [reflexivity|]. cbn. repeat split.
  - intros url H. destruct (Hfail url) as [e He]. rewrite He in H.
    discriminate H.
Qed.

Lemma startup_with_no_agent_answering_witness :
  let env := down_env in
  exists state,
    startup env [helper_endpoint; travel_endpoint] ""
      (fun _ => inr reliable_client)
    = Returns state
    /\ app_agents state = []
    /\ agents_discovered (health (app_agents state) (app_client state)) = 0
    /\ forall validate request tr,
         execute_task env validate (app_agents state) request tr
         = (Raises
              (HTTPException 503
                 "No agents available. Agent discovery may have failed."),
            tr).
Proof.
  cbv zeta.
  apply (startup_with_no_agent_answering down_env
           [helper_endpoint; travel_endpoint] ""
           (fun _ => inr reliable_client)).
  intros url. eexists. reflexivity.
Defined.
